(** * jenga-ai-solver: the reward function, the action enumerator and the
      hierarchical DQN agent

    A shallow embedding of [src/utils.py] and
    [src/deep_q_learning/deep_q_agent.py].

    Number models.
    - Python [int] is [Z].
    - The Python [float]s of [calculate_reward] are IEEE binary64 values
      ([PrimFloat.float]), so its examples are evaluated bit for bit.
    - The exploration schedule (lines 89-92) and the Bellman target (lines
      130-137) are embedded in the arithmetic the code runs them in: binary64
      and binary32 floating point ([spec_float], modules [F64] and [F32]),
      with infinities, NaN and rounding to nearest even.
    - The model of the whole agent (section [Agent]) carries the Q-values,
      [gamma] and [epsilon] as reals [R]; it serves the statements about which
      parts of the agent the methods read and write, which do not depend on
      rounding. *)

From Stdlib Require Import ZArith List String Reals Lra Lia.
From Stdlib Require Import PrimFloat SpecFloat FloatOps.
From stdpp Require Import base option list list_numbers gmap sets strings.

Set Warnings "-inexact-float,-abstract-large-number".
Local Open Scope Z_scope.

(* ===================================================================== *)
(** * Part I: [src/utils.py]                                              *)
(* ===================================================================== *)

(** ** Python numbers *)

(** Conversion of a Python [int] to a [float], as done when an [int] meets a
    [float] in [+]: correctly rounded (to nearest, ties to even), and an
    [OverflowError] ([None]) when the integer is too large. *)
Definition float_of_int (z : Z) : option float :=
  let f := SF2Prim (binary_normalize prec emax z 0 false) in
  if is_infinity f then None else Some f.

(** [int + float]. *)
Definition int_add_float (z : Z) (x : float) : option float :=
  f ← float_of_int z; Some (f + x)%float.

(** [float + int]. *)
Definition float_add_int (x : float) (z : Z) : option float :=
  f ← float_of_int z; Some (x + f)%float.

(** Truth value of an argument that is a [float] or [None]: [None], [0.0] and
    [-0.0] are falsy, every other float (NaN included) is truthy. *)
Definition truthy (x : option float) : bool :=
  match x with
  | None => false
  | Some f => negb (f =? 0)%float
  end.

(** ** [calculate_reward] *)

(** [stability_penalty = previous_stability - current_stability
      if previous_stability else -current_stability] *)
Definition stability_penalty (previous_stability : option float)
    (current_stability : float) : float :=
  match previous_stability with
  | Some p => if truthy (Some p) then (p - current_stability)%float
              else (- current_stability)%float
  | None => (- current_stability)%float
  end.

(** [base_reward = level + (1 if color == "b" else 0)] *)
Definition base_reward (level : Z) (color : string) : Z :=
  level + (if String.eqb color "b" then 1 else 0).

(** [fall_penalty = -50 if is_fallen else 0] *)
Definition fall_penalty (is_fallen : bool) : Z :=
  if is_fallen then -50 else 0.

(** The function itself; [None] is the [OverflowError] of an [int] that has no
    [float]. *)
Definition calculate_reward (action : Z * string) (is_fallen : bool)
    (previous_stability : option float) (current_stability : float)
    : option float :=
  let '(level, color) := action in
  r ← int_add_float (base_reward level color)
        (stability_penalty previous_stability current_stability);
  float_add_int r (fall_penalty is_fallen).

(** ** [get_possible_actions] *)

(** [MAX_LEVEL] and [MAX_BLOCKS_IN_LEVEL] come from [environment.environment]
    and are parameters here. *)

(** [{(level, color) for level in range(MAX_LEVEL)
                     for color in range(MAX_BLOCKS_IN_LEVEL)}] *)
Definition action_space (MAX_LEVEL MAX_BLOCKS_IN_LEVEL : Z) : gset (Z * Z) :=
  list_to_set
    (level ← seqZ 0 MAX_LEVEL;
     color ← seqZ 0 MAX_BLOCKS_IN_LEVEL;
     [(level, color)]).

(** [list(action_space - taken_actions)]; the order of a Python set is not
    specified, [elements] fixes some order. *)
Definition get_possible_actions (MAX_LEVEL MAX_BLOCKS_IN_LEVEL : Z)
    (taken_actions : gset (Z * Z)) : list (Z * Z) :=
  elements (action_space MAX_LEVEL MAX_BLOCKS_IN_LEVEL ∖ taken_actions).

(** Levels of a tower are far inside the range in which an [int] has an
    exact [float]. *)
Definition level_bound : Z := 4096.

(* ===================================================================== *)
(** * Part II: [src/deep_q_learning/deep_q_agent.py]                      *)
(* ===================================================================== *)

(** [INT_TO_COLOR = {0: "y", 1: "b", 2: "g"}] *)
Definition INT_TO_COLOR : gmap Z string :=
  {[ 0 := "y"%string; 1 := "b"%string; 2 := "g"%string ]}.

(** ** The external collaborators *)

(** Modelled from the spec: the value approximator [DQN] of
    [deep_q_learning/deep_q_network.py], which is not among the sources. By
    sections 1 and 6 of the specification it is a black-box mapping from a
    state to a vector of action values, one per discrete action of its
    sub-problem, that exposes its full parameter set. [dqn_new] is the
    constructor [DQN(input_shape, num_actions)] (its last argument stands for
    the random initialisation) and [forward] the call of a network on one
    state, a function of the parameters and the state.

    The remaining fields are [torch] itself: [autograd f w] is the gradient at
    [w] of the scalar [f], [grad_add] the accumulation into [.grad], [Adam lr]
    a fresh optimizer and [adam_step] one [optimizer.step()]. *)
Class Torch := {
  State : Type;
  Params : Type;
  Grad : Type;
  OptState : Type;
  InputShape : Type;
  dqn_new : InputShape -> Z -> nat -> Params;
  forward : Params -> State -> list R;
  autograd : (Params -> option R) -> Params -> Grad;
  grad_add : Grad -> Grad -> Grad;
  Adam : R -> OptState;
  adam_step : OptState -> Params -> Grad -> OptState * Params
}.

Section Agent.
Context `{Torch}.

(** A network object: its parameters, the gradient accumulated in [.grad]
    ([None] after [zero_grad]) and the train/eval flag. [forward] reads the
    parameters only. *)
Record DQN := mkDQN {
  weights : Params;
  grad : option Grad;
  training : bool
}.

(** [net.state_dict()] *)
Definition state_dict (net : DQN) : Params := weights net.

(** [net.load_state_dict(sd)]: every parameter of [net] is overwritten. *)
Definition load_state_dict (net : DQN) (sd : Params) : DQN :=
  mkDQN sd (grad net) (training net).

(** [net.eval()] *)
Definition eval (net : DQN) : DQN := mkDQN (weights net) (grad net) false.

(** [net(state)] *)
Definition call (net : DQN) (state : State) : list R :=
  forward (weights net) state.

(** A transition [(state, action, reward, next_state, done)]; the action
    carries the level index and the color index. *)
Record Transition := mkTransition {
  tr_state : State;
  tr_action : Z * Z;
  tr_reward : R;
  tr_next_state : State;
  tr_done : bool
}.

(** Modelled from the spec: the class [ReplayMemory] of
    [deep_q_learning/deep_q_network.py], which is not among the sources: a
    ring buffer of transitions with a fixed capacity (section 4.3). *)
Record ReplayMemory := mkReplayMemory {
  capacity : nat;
  buffer : list Transition
}.

(** Modelled from the spec: [ReplayMemory(capacity)], empty. *)
Definition ReplayMemory_new (cap : nat) : ReplayMemory := mkReplayMemory cap [].

(** Modelled from the spec: [len(memory)], the current count of stored
    transitions. *)
Definition memory_len (m : ReplayMemory) : Z := Z.of_nat (length (buffer m)).

(** Modelled from the spec: [memory.push(transition)] appends, evicting the
    oldest entry first when the buffer is at capacity. *)
Definition push (m : ReplayMemory) (t : Transition) : ReplayMemory :=
  match capacity m with
  | O => m
  | S _ =>
      if (length (buffer m) <? capacity m)%nat
      then mkReplayMemory (capacity m) (buffer m ++ [t])
      else mkReplayMemory (capacity m) (drop 1 (buffer m) ++ [t])
  end.

(** Modelled from the spec: the random choice of [k] distinct positions of the
    buffer. [rng j] is the [j]-th raw draw of the generator. *)
Fixpoint sample_from (buf : list Transition) (k : nat) (rng : nat -> nat)
    (j : nat) : list Transition :=
  match k with
  | O => []
  | S k' =>
      let i := (rng j mod length buf)%nat in
      match buf !! i with
      | Some t => t :: sample_from (delete i buf) k' rng (S j)
      | None => []
      end
  end.

(** Modelled from the spec: [memory.sample(batch_size)], [batch_size]
    transitions chosen at random without replacement; asking for more than is
    stored (or for a negative number) raises. *)
Definition sample (m : ReplayMemory) (batch_size : Z) (rng : nat -> nat)
    : option (list Transition) :=
  if (batch_size <? 0) || (memory_len m <? batch_size) then None
  else Some (sample_from (buffer m) (Z.to_nat batch_size) rng 0).

(** ** The agent *)

Record HierarchicalDQNAgent := mkAgent {
  gamma : R;
  epsilon : R;
  epsilon_end : R;
  epsilon_decay : R;
  steps_done : Z;
  policy_net_level_1 : DQN;
  policy_net_level_2 : DQN;
  target_net_level_1 : DQN;
  target_net_level_2 : DQN;
  optimizer_level_1 : OptState;
  optimizer_level_2 : OptState;
  memory : ReplayMemory
}.

Definition set_steps_done (a : HierarchicalDQNAgent) (n : Z) :=
  mkAgent (gamma a) (epsilon a) (epsilon_end a) (epsilon_decay a) n
    (policy_net_level_1 a) (policy_net_level_2 a)
    (target_net_level_1 a) (target_net_level_2 a)
    (optimizer_level_1 a) (optimizer_level_2 a) (memory a).

Definition set_epsilon (a : HierarchicalDQNAgent) (e : R) :=
  mkAgent (gamma a) e (epsilon_end a) (epsilon_decay a) (steps_done a)
    (policy_net_level_1 a) (policy_net_level_2 a)
    (target_net_level_1 a) (target_net_level_2 a)
    (optimizer_level_1 a) (optimizer_level_2 a) (memory a).

Definition set_targets (a : HierarchicalDQNAgent) (t1 t2 : DQN) :=
  mkAgent (gamma a) (epsilon a) (epsilon_end a) (epsilon_decay a)
    (steps_done a) (policy_net_level_1 a) (policy_net_level_2 a) t1 t2
    (optimizer_level_1 a) (optimizer_level_2 a) (memory a).

(** The two policy networks, each with the optimizer that owns its
    parameters. *)
Inductive PolicyNet := Level1 | Level2.

Definition policy_net (k : PolicyNet) (a : HierarchicalDQNAgent) : DQN :=
  match k with Level1 => policy_net_level_1 a | Level2 => policy_net_level_2 a end.

Definition optimizer (k : PolicyNet) (a : HierarchicalDQNAgent) : OptState :=
  match k with Level1 => optimizer_level_1 a | Level2 => optimizer_level_2 a end.

Definition set_policy (k : PolicyNet) (a : HierarchicalDQNAgent)
    (net : DQN) (opt : OptState) :=
  match k with
  | Level1 =>
      mkAgent (gamma a) (epsilon a) (epsilon_end a) (epsilon_decay a)
        (steps_done a) net (policy_net_level_2 a)
        (target_net_level_1 a) (target_net_level_2 a)
        opt (optimizer_level_2 a) (memory a)
  | Level2 =>
      mkAgent (gamma a) (epsilon a) (epsilon_end a) (epsilon_decay a)
        (steps_done a) (policy_net_level_1 a) net
        (target_net_level_1 a) (target_net_level_2 a)
        (optimizer_level_1 a) opt (memory a)
  end.

(** [__init__]. The four [seed]s stand for the random initial weights of the
    four networks, in the order of construction. *)
Definition init (input_shape : InputShape)
    (num_actions_level_1 num_actions_level_2 : Z)
    (lr gamma0 epsilon_start epsilon_end0 epsilon_decay0 : R)
    (seed1 seed2 seed3 seed4 : nat) : HierarchicalDQNAgent :=
  let policy_net_level_1 :=
    mkDQN (dqn_new input_shape num_actions_level_1 seed1) None true in
  let policy_net_level_2 :=
    mkDQN (dqn_new input_shape num_actions_level_2 seed2) None true in
  let target_net_level_1 :=
    mkDQN (dqn_new input_shape num_actions_level_1 seed3) None true in
  let target_net_level_2 :=
    mkDQN (dqn_new input_shape num_actions_level_2 seed4) None true in
  let target_net_level_1 :=
    load_state_dict target_net_level_1 (state_dict policy_net_level_1) in
  let target_net_level_2 :=
    load_state_dict target_net_level_2 (state_dict policy_net_level_2) in
  let target_net_level_1 := eval target_net_level_1 in
  let target_net_level_2 := eval target_net_level_2 in
  mkAgent gamma0 epsilon_start epsilon_end0 epsilon_decay0 0
    policy_net_level_1 policy_net_level_2
    target_net_level_1 target_net_level_2
    (Adam lr) (Adam lr) (ReplayMemory_new 10000).

(** [update_target_net] *)
Definition update_target_net (a : HierarchicalDQNAgent) : HierarchicalDQNAgent :=
  set_targets a
    (load_state_dict (target_net_level_1 a) (state_dict (policy_net_level_1 a)))
    (load_state_dict (target_net_level_2 a) (state_dict (policy_net_level_2 a))).

(** ** [select_action] *)

(** The outcome of the random generator during one call: the value of
    [random.random()] and the raw draws behind the two [random.randrange]
    calls. *)
Record Draws := mkDraws {
  random_random : R;
  raw_level : Z;
  raw_color : Z
}.

(** [random.randrange(start, stop)]: a [ValueError] ([None]) on an empty
    range, otherwise the raw draw reduced into [start .. stop - 1]. *)
Definition randrange (start stop raw : Z) : option Z :=
  if stop <=? start then None else Some (start + raw mod (stop - start)).

(** [t.argmax()] of a row: the position of the first maximum; an empty row
    raises. *)
Fixpoint argmax_from (best_i : Z) (best : R) (i : Z) (row : list R) : Z :=
  match row with
  | [] => best_i
  | x :: row' =>
      if Rlt_dec best x then argmax_from i x (i + 1) row'
      else argmax_from best_i best (i + 1) row'
  end.

Definition argmax (row : list R) : option Z :=
  match row with
  | [] => None
  | x :: row' => Some (argmax_from 0 x 1 row')
  end.

(** The Exploit branch (lines 97-99); the dictionary lookup raises a
    [KeyError] on an index without a color. *)
Definition exploit (a : HierarchicalDQNAgent) (state : State)
    : option (Z * string) :=
  level ← argmax (call (policy_net_level_1 a) state);
  color_index ← argmax (call (policy_net_level_2 a) state);
  color ← INT_TO_COLOR !! color_index;
  Some (level, color).

(** The Explore branch (line 102). *)
Definition explore (d : Draws) : option (Z * string) :=
  level ← randrange 0 9 (raw_level d);
  color_index ← randrange 0 2 (raw_color d);
  color ← INT_TO_COLOR !! color_index;
  Some (level, color).

(** The value assigned to [self.epsilon] at lines 91-92, in real arithmetic;
    [F64.select_action_schedule] below has these lines in binary64. *)
Definition decayed_epsilon (a : HierarchicalDQNAgent) : R :=
  (epsilon_end a + (epsilon a - epsilon_end a)
     * exp (-1 * IZR (steps_done a) / epsilon_decay a))%R.

(** [select_action]: the agent after the call, and the action returned
    ([None] when the call raised; the assignments made before that stay). The
    two [print]s are not modelled. [epsilon_decay] is a Python number, as the
    constructor documents it, so that a zero raises [ZeroDivisionError]. *)
Definition select_action (a : HierarchicalDQNAgent) (state : State)
    (d : Draws) : HierarchicalDQNAgent * option (Z * string) :=
  let a := set_steps_done a (steps_done a + 1) in
  if Req_dec_T (epsilon_decay a) 0 then (a, None)
  else
    let a := set_epsilon a (decayed_epsilon a) in
    if Rgt_dec (random_random d) (epsilon a) then (a, exploit a state)
    else (a, explore d).

(** ** [optimize_model] *)

(** Tensors of shape [[B]] are lists of reals, of shape [[B, n]] lists of
    rows. *)

(** [t.max(1)[0]] *)
Definition row_max (row : list R) : option R :=
  match row with
  | [] => None
  | x :: row' => Some (fold_left Rmax row' x)
  end.

(** [t.gather(1, index)]: an index outside its row raises. *)
Definition gather (rows : list (list R)) (index : list Z) : option (list R) :=
  mapM (fun ri : list R * Z =>
          if (ri.2 <? 0) then None else ri.1 !! Z.to_nat ri.2)
       (zip rows index).

(** [F.mse_loss(input, target)] *)
Definition mse_loss (input target : list R) : R :=
  (fold_right Rplus 0 (zip_with (fun c y => (c - y) * (c - y)) input target)
     / INR (length input))%R.

(** [policy_net(batch_state).gather(1, batch_action)] for the weights [w]. *)
Definition current_q_values (w : Params) (batch_state : list State)
    (batch_action : list Z) : option (list R) :=
  gather (map (forward w) batch_state) batch_action.

(** [target_net(batch_next_state).max(1)[0].detach()] *)
Definition next_q_values (w : Params) (batch_next_state : list State)
    : option (list R) :=
  mapM row_max (map (forward w) batch_next_state).

(** [(next_q_values * self.gamma * (1 - batch_done)) + batch_reward], in real
    arithmetic; [F32.expected_q_values] below has this line on float32
    tensors. *)
Definition expected_q_values (next_q : list R) (gamma0 : R)
    (batch_done batch_reward : list R) : list R :=
  zip_with Rplus
    (zip_with Rmult (map (fun q => q * gamma0)%R next_q)
                    (map (fun d => 1 - d)%R batch_done))
    batch_reward.

(** [torch.tensor(batch_done, dtype=torch.float32)] *)
Definition done_flag (b : bool) : R := if b then 1%R else 0%R.

(** A loss tensor with its autograd graph: the policy network whose parameters
    are the leaves, the prediction as a function of these parameters, and the
    regression target, which is a constant of the graph (it was detached). *)
Record Loss := mkLoss {
  leaf : PolicyNet;
  prediction : Params -> option (list R);
  target : list R
}.

Definition loss_at (l : Loss) (w : Params) : option R :=
  c ← prediction l w; Some (mse_loss c (target l)).

(** Lines 116-141: the batch, the Q-values and the two losses. *)
Definition compute_losses (a : HierarchicalDQNAgent)
    (transitions : list Transition) : option (Loss * Loss) :=
  match transitions with
  | [] => None
  | _ =>
      let batch_state := map tr_state transitions in
      let batch_reward := map tr_reward transitions in
      let batch_next_state := map tr_next_state transitions in
      let batch_done := map (fun t => done_flag (tr_done t)) transitions in
      let batch_action_level := map (fun t => (tr_action t).1) transitions in
      let batch_action_color := map (fun t => (tr_action t).2) transitions in
      current_q_values_level_1 ←
        current_q_values (weights (policy_net_level_1 a))
          batch_state batch_action_level;
      next_q_values_level_1 ←
        next_q_values (weights (target_net_level_1 a)) batch_next_state;
      current_q_values_level_2 ←
        current_q_values (weights (policy_net_level_2 a))
          batch_state batch_action_color;
      next_q_values_level_2 ←
        next_q_values (weights (target_net_level_2 a)) batch_next_state;
      let expected_q_values_level_1 :=
        expected_q_values next_q_values_level_1 (gamma a)
          batch_done batch_reward in
      let expected_q_values_level_2 :=
        expected_q_values next_q_values_level_2 (gamma a)
          batch_done batch_reward in
      Some (mkLoss Level1
              (fun w => current_q_values w batch_state batch_action_level)
              expected_q_values_level_1,
            mkLoss Level2
              (fun w => current_q_values w batch_state batch_action_color)
              expected_q_values_level_2)
  end.

(** [optimizer.zero_grad()] *)
Definition zero_grad (k : PolicyNet) (a : HierarchicalDQNAgent) :=
  let net := policy_net k a in
  set_policy k a (mkDQN (weights net) None (training net)) (optimizer k a).

(** [loss.backward()]: the gradient of the loss is accumulated into the
    [.grad] of the leaves of its graph. *)
Definition backward (l : Loss) (a : HierarchicalDQNAgent) :=
  let net := policy_net (leaf l) a in
  let g := autograd (loss_at l) (weights net) in
  let g' := match grad net with None => g | Some g0 => grad_add g0 g end in
  set_policy (leaf l) a (mkDQN (weights net) (Some g') (training net))
    (optimizer (leaf l) a).

(** [optimizer.step()]: parameters without a gradient are skipped. *)
Definition step (k : PolicyNet) (a : HierarchicalDQNAgent) :=
  let net := policy_net k a in
  match grad net with
  | None => a
  | Some g =>
      let '(opt', w') := adam_step (optimizer k a) (weights net) g in
      set_policy k a (mkDQN w' (grad net) (training net)) opt'
  end.

(** [optimize_model]; [None] when the call raises. [rng] is the outcome of the
    random generator used by [memory.sample]. *)
Definition optimize_model (a : HierarchicalDQNAgent) (batch_size : Z)
    (rng : nat -> nat) : option HierarchicalDQNAgent :=
  if memory_len (memory a) <? batch_size then Some a
  else
    transitions ← sample (memory a) batch_size rng;
    '(loss_level_1, loss_level_2) ← compute_losses a transitions;
    let a := zero_grad Level1 a in
    let a := zero_grad Level2 a in
    let a := backward loss_level_1 a in
    let a := backward loss_level_2 a in
    let a := step Level1 a in
    let a := step Level2 a in
    Some a.

(** ** Vocabulary of the statements below *)

(** The network that one optimizer step yields from the network [net] with
    optimizer state [opt] under the loss [l] alone. *)
Definition trained (net : DQN) (opt : OptState) (l : Loss) : DQN :=
  let g := autograd (loss_at l) (weights net) in
  mkDQN (adam_step opt (weights net) g).2 (Some g) (training net).

Definition target_net (k : PolicyNet) (a : HierarchicalDQNAgent) : DQN :=
  match k with Level1 => target_net_level_1 a | Level2 => target_net_level_2 a end.

Definition action_index (k : PolicyNet) (t : Transition) : Z :=
  match k with Level1 => (tr_action t).1 | Level2 => (tr_action t).2 end.

(** Two transitions that the sub-problem [k] cannot tell apart: they may
    differ in the action index of the other sub-problem only. *)
Definition same_for (k : PolicyNet) (t t' : Transition) : Prop :=
  tr_state t = tr_state t' /\ action_index k t = action_index k t'
  /\ tr_reward t = tr_reward t' /\ tr_next_state t = tr_next_state t'
  /\ tr_done t = tr_done t'.

End Agent.

(** ** A concrete collaborator

    The smallest value approximator: its parameters are its output vector,
    whatever the state, so that a network built for [n] actions has [n]
    outputs. The optimizer moves the parameters against the gradient it is
    handed, and the gradient operator of this instance hands out the zero
    vector. It only serves to instantiate the results below at concrete
    agents. *)
Definition const_torch : Torch := {|
  State := unit;
  Params := list R;
  Grad := list R;
  OptState := R;
  InputShape := unit;
  dqn_new := fun _ n seed => repeat (INR seed) (Z.to_nat n);
  forward := fun w _ => w;
  autograd := fun _ w => map (fun _ => 0%R) w;
  grad_add := zip_with Rplus;
  Adam := fun lr => lr;
  adam_step := fun lr w g => (lr, zip_with (fun x d => x - lr * d)%R w g)
|}.

(** The agent with the default hyper-parameters, for a tower of nine levels
    and three colors. *)
Definition default_agent : HierarchicalDQNAgent (H := const_torch) :=
  init (H := const_torch) tt 9 3 (1 / 10000) (99 / 100) 1 (1 / 10) 5000
    1 2 3 4.

(** The same agent for a tower with three levels only. *)
Definition three_level_agent : HierarchicalDQNAgent (H := const_torch) :=
  init (H := const_torch) tt 3 3 (1 / 10000) (99 / 100) 1 (1 / 10) 5000
    1 2 3 4.

(** The default agent with other initial weights in its color networks. *)
Definition other_color_agent : HierarchicalDQNAgent (H := const_torch) :=
  init (H := const_torch) tt 9 3 (1 / 10000) (99 / 100) 1 (1 / 10) 5000
    1 7 3 9.

(** [agent.memory.push(transition)], as the training loop does it. *)
Definition remember `{Torch} (a : HierarchicalDQNAgent) (t : Transition)
    : HierarchicalDQNAgent :=
  mkAgent (gamma a) (epsilon a) (epsilon_end a) (epsilon_decay a)
    (steps_done a) (policy_net_level_1 a) (policy_net_level_2 a)
    (target_net_level_1 a) (target_net_level_2 a)
    (optimizer_level_1 a) (optimizer_level_2 a) (push (memory a) t).

(** A terminal transition with reward [1], and the same transition with
    another color index. *)
Definition terminal_transition : Transition (H := const_torch) :=
  mkTransition (H := const_torch) tt (0, 0) 1 tt true.

Definition terminal_transition' : Transition (H := const_torch) :=
  mkTransition (H := const_torch) tt (0, 2) 1 tt true.

(** Draws that lead to the Explore branch with raw level draw [8]. *)
Definition explore_draws : Draws := mkDraws 0 8 0.

(** ** Vocabulary of the further properties *)

Section AgentCalls.
Context `{Torch}.

(** A transition that [optimize_model] can process for the agent [a]: each
    action index addresses an output of its policy network at the state, and
    each target network returns at least one value at the next state. *)
Definition processable (a : HierarchicalDQNAgent) (t : Transition) : Prop :=
  0 <= (tr_action t).1
     < Z.of_nat (length (call (policy_net_level_1 a) (tr_state t)))
  /\ 0 <= (tr_action t).2
        < Z.of_nat (length (call (policy_net_level_2 a) (tr_state t)))
  /\ call (target_net_level_1 a) (tr_next_state t) <> []
  /\ call (target_net_level_2 a) (tr_next_state t) <> [].

(** The calls that a training loop makes on one agent. *)
Inductive Call :=
  | CallSelectAction (state : State) (d : Draws)
  | CallPush (t : Transition)
  | CallOptimizeModel (batch_size : Z) (rng : nat -> nat)
  | CallUpdateTargetNet.

(** The agent after one call; a call of [optimize_model] that raises does so
    before its first assignment and leaves the agent as it was. *)
Definition do_call (a : HierarchicalDQNAgent) (c : Call)
    : HierarchicalDQNAgent :=
  match c with
  | CallSelectAction state d => (select_action a state d).1
  | CallPush t => remember a t
  | CallOptimizeModel batch_size rng =>
      match optimize_model a batch_size rng with
      | Some a' => a'
      | None => a
      end
  | CallUpdateTargetNet => update_target_net a
  end.

Definition do_calls (a : HierarchicalDQNAgent) (calls : list Call)
    : HierarchicalDQNAgent :=
  fold_left do_call calls a.

Definition is_select_action (c : Call) : bool :=
  match c with CallSelectAction _ _ => true | _ => false end.

Definition is_push (c : Call) : bool :=
  match c with CallPush _ => true | _ => false end.

End AgentCalls.

(** An agent that never explores: [epsilon_start = epsilon_end = 0]. *)
Definition greedy_agent : HierarchicalDQNAgent (H := const_torch) :=
  init (H := const_torch) tt 9 3 (1 / 10000) (99 / 100) 0 0 5000 1 2 3 4.

(** The greedy agent with a color network of four outputs, the last one the
    largest. *)
Definition four_color_agent : HierarchicalDQNAgent (H := const_torch) :=
  set_policy (H := const_torch) Level2 greedy_agent
    (mkDQN (H := const_torch) [0; 0; 0; 1]%R None true)
    (optimizer_level_2 greedy_agent).

(** Draws that lead to the Exploit branch of an agent with [epsilon] below
    one half. *)
Definition exploit_draws : Draws := mkDraws (1 / 2) 0 0.

(* ===================================================================== *)
(** * Part II-b: the numeric lines in floating point                      *)
(* ===================================================================== *)

(** ** Lines 130-137 on float32 tensors *)

Module F32.

(** The binary32 format of [torch.float32]. *)
Definition prec : Z := 24.
Definition emax : Z := 128.

Definition add := SFadd prec emax.
Definition sub := SFsub prec emax.
Definition mul := SFmul prec emax.

Definition zero : spec_float := S754_zero false.
Definition one : spec_float := Eval vm_compute in SFone prec emax.

(** The float32 value of a Python [float], as [torch.tensor] stores it and as
    a Python scalar enters an operation with a float32 tensor. *)
Definition of_float64 (x : spec_float) : spec_float :=
  match x with
  | S754_finite s m e => binary_round prec emax s m e
  | _ => x
  end.

Definition of_py (x : float) : spec_float := of_float64 (Prim2SF x).

Definition is_nan (x : spec_float) : bool :=
  match x with S754_nan => true | _ => false end.

Definition is_finite (x : spec_float) : bool :=
  match x with S754_zero _ | S754_finite _ _ _ => true | _ => false end.

(** One step of [t.max(1)]: a NaN, once met, is the maximum; among numbers
    the earlier one stays unless the later one is greater. *)
Definition tensor_max (a b : spec_float) : spec_float :=
  if is_nan a then a else if is_nan b then b
  else if SFltb a b then b else a.

(** [t.max(1)[0]] on one row; an empty row raises. *)
Definition row_max (row : list spec_float) : option spec_float :=
  match row with
  | [] => None
  | x :: row' => Some (fold_left tensor_max row' x)
  end.

(** [target_net(batch_next_state).max(1)[0].detach()], from the output
    [target_out] of the target network, one row per transition. *)
Definition next_q_values (target_out : list (list spec_float))
    : option (list spec_float) :=
  mapM row_max target_out.

(** [torch.tensor(batch_done, dtype=torch.float32)] *)
Definition done_tensor (batch_done : list bool) : list spec_float :=
  map (fun b : bool => if b then one else zero) batch_done.

(** [(next_q_values * self.gamma * (1 - batch_done)) + batch_reward];
    [gamma] is the float32 scalar of the product. *)
Definition expected_q_values (next_q : list spec_float) (gamma : spec_float)
    (batch_done batch_reward : list spec_float) : list spec_float :=
  zip_with add
    (zip_with mul (map (fun q => mul q gamma) next_q)
                  (map (fun d => sub one d) batch_done))
    batch_reward.

(** What lines 130-137 read of one sampled transition: the rows that the two
    target networks return at its next state, its done flag, and its reward,
    a Python [float], as the float32 tensor [torch.tensor(batch_reward)]
    holds it. *)
Record Sample := mkSample {
  next_level_row : list spec_float;
  next_color_row : list spec_float;
  done : bool;
  reward : spec_float
}.

(** Lines 130, 133, 136 and 137: the two regression targets of a batch. *)
Definition bellman_targets (gamma : spec_float) (batch : list Sample)
    : option (list spec_float * list spec_float) :=
  let batch_reward := map reward batch in
  let batch_done := done_tensor (map done batch) in
  next_q_values_level_1 ← next_q_values (map next_level_row batch);
  next_q_values_level_2 ← next_q_values (map next_color_row batch);
  Some (expected_q_values next_q_values_level_1 gamma batch_done batch_reward,
        expected_q_values next_q_values_level_2 gamma batch_done batch_reward).

(** *** Vocabulary of the statements *)

(** [q] is the maximum of [row]: NaN when the row holds a NaN, otherwise an
    entry of the row that no entry exceeds. *)
Definition is_max (row : list spec_float) (q : spec_float) : Prop :=
  (Exists (fun x => is_nan x = true) row -> q = S754_nan)
  /\ (Forall (fun x => is_nan x = false) row ->
      q ∈ row /\ Forall (fun x => SFltb q x = false) row).

(** [y] is [r], but for the sign of a zero. *)
Definition same_number (y r : spec_float) : Prop :=
  y = r \/ (r = S754_zero true /\ y = S754_zero false).

(** [y] is the Bellman target of a transition with reward [r] and done flag
    [d] whose target network returns [row] at the next state. *)
Definition is_target (gamma : spec_float) (row : list spec_float)
    (d : bool) (r y : spec_float) : Prop :=
  exists next_q,
    row_max row = Some next_q
    /\ is_max row next_q
    /\ y = add r (mul (mul gamma next_q) (sub one (if d then one else zero)))
    /\ (d = false -> y = add r (mul (mul gamma next_q) one))
    /\ (d = true -> is_finite (mul gamma next_q) = true -> same_number y r).

(** *** Concrete batches *)

(** [gamma = 0.99] *)
Definition gamma_default : spec_float := of_py 0.99.

(** A transition that is not terminal: level outputs [1.0, 2.0], color output
    [0.5], reward [1.0]. *)
Definition running_sample : Sample :=
  mkSample [of_py 1; of_py 2] [of_py 0.5] false (of_py 1).

(** A terminal transition with finite outputs and reward [0.25]. *)
Definition terminal_sample : Sample :=
  mkSample [of_py 2] [of_py 3] true (of_py 0.25).

(** A terminal transition with reward [1.0] for which the level target
    network has overflowed to [inf]. *)
Definition overflowed_sample : Sample :=
  mkSample [S754_infinity false] [of_py 1] true (of_py 1).

End F32.

(** ** Lines 89-92 in float64 *)

Module F64.

Definition add := SFadd prec emax.
Definition sub := SFsub prec emax.
Definition mul := SFmul prec emax.
Definition div := SFdiv prec emax.

Definition of_py (x : float) : spec_float := Prim2SF x.

Definition is_finite (x : spec_float) : bool :=
  match x with S754_zero _ | S754_finite _ _ _ => true | _ => false end.

(** [np.exp] on a float64: a function of [numpy], a parameter here. *)
Class Numpy := { np_exp : spec_float -> spec_float }.

(** The [float] of a Python [int]; [None] is the [OverflowError]. *)
Definition of_int (z : Z) : option spec_float :=
  match binary_normalize prec emax z 0 false with
  | S754_infinity _ => None
  | f => Some f
  end.

(** The exploration schedule of an agent; [epsilon_decay] is an [int], as the
    constructor documents it. *)
Record Schedule := mkSchedule {
  epsilon : spec_float;
  epsilon_end : spec_float;
  epsilon_decay : Z;
  steps_done : Z
}.

(** [-1. * self.steps_done / self.epsilon_decay]; [None] when the expression
    raises ([ZeroDivisionError], or [OverflowError] for an [int] without a
    [float]). *)
Definition exponent (steps decay : Z) : option spec_float :=
  s ← of_int steps;
  d ← of_int decay;
  if decay =? 0 then None else Some (div (mul (of_py (-1)) s) d).

(** Lines 89-92 of [select_action]; when line 91 raises, the increment of
    line 89 stays and [epsilon] is not assigned. *)
Definition select_action_schedule `{Numpy} (s : Schedule) : Schedule :=
  let steps := steps_done s + 1 in
  match exponent steps (epsilon_decay s) with
  | None => mkSchedule (epsilon s) (epsilon_end s) (epsilon_decay s) steps
  | Some x =>
      mkSchedule
        (add (epsilon_end s)
             (mul (sub (epsilon s) (epsilon_end s)) (np_exp x)))
        (epsilon_end s) (epsilon_decay s) steps
  end.

(** The schedule after [n] calls of [select_action]. *)
Fixpoint select_action_calls `{Numpy} (n : nat) (s : Schedule) : Schedule :=
  match n with
  | O => s
  | S n' => select_action_calls n' (select_action_schedule s)
  end.

(** *** Concrete schedules *)

(** The exponential at the arguments that the two schedules below hand to
    it, correctly rounded: [-1.0] to [-10.0], and [-1e-17], whose
    exponential rounds to [1.0]. *)
Definition exp_table : list (spec_float * spec_float) :=
  map (fun p : float * float => (of_py p.1, of_py p.2))
    [ (-1, 0x1.78b56362cef38p-2); (-2, 0x1.152aaa3bf81ccp-3);
      (-3, 0x1.97db0ccceb0afp-5); (-4, 0x1.2c155b8213cf4p-6);
      (-5, 0x1.b993fe00d5376p-8); (-6, 0x1.44e51f113d4d6p-9);
      (-7, 0x1.de16b9c24a98fp-11); (-8, 0x1.5fc21041027adp-12);
      (-9, 0x1.02cf22526545ap-13); (-10, 0x1.7cd79b5647c9bp-15);
      (-0x1.70ef54646d497p-57, 1) ]%float.

(** [np.exp] restricted to the table; NaN stands for "not tabulated". *)
Definition table_numpy : Numpy :=
  {| np_exp := fun x =>
       match List.find (fun p : spec_float * spec_float => SFeqb p.1 x)
               exp_table with
       | Some p => p.2
       | None => S754_nan
       end |}.

(** [epsilon_start = 1.0], [epsilon_end = 0.1] (the defaults) and
    [epsilon_decay = 1]. *)
Definition fast_schedule : Schedule :=
  mkSchedule (of_py 1) (of_py 0.1) 1 0.

(** [epsilon_start = 0.6693649445790858],
    [epsilon_end = 0.10239821307866553], [epsilon_decay = 10 ** 17]. *)
Definition slow_schedule : Schedule :=
  mkSchedule (of_py 0x1.56b700841caf7p-1) (of_py 0x1.a36c4f0577a2cp-4)
    (10 ^ 17) 0.

(** [epsilon_start = 1.0], [epsilon_end = 0.1] and [epsilon_decay = 0]. *)
Definition zero_decay_schedule : Schedule :=
  mkSchedule (of_py 1) (of_py 0.1) 0 0.

End F64.

(* ===================================================================== *)
(** * Part III: properties of [src/utils.py]                              *)
(* ===================================================================== *)

Lemma float_of_int_small (z : Z) :
  - level_bound <= z <= level_bound + 1 -> is_Some (float_of_int z).
Proof.
  intros Hz.
  assert (Hall : forallb (fun k => bool_decide (is_Some (float_of_int k)))
                   (seqZ (- level_bound) (2 * level_bound + 2)) = true)
    by (vm_compute; reflexivity).
  rewrite forallb_forall in Hall.
  apply (bool_decide_eq_true_1 (is_Some (float_of_int z))).
  apply Hall, list_elem_of_In, elem_of_seqZ.
  unfold level_bound in *. lia.
Qed.

Lemma float_of_int_fall_penalty (b : bool) :
  float_of_int (fall_penalty b) = Some (if b then (-50)%float else 0%float).
Proof. destruct b; vm_compute; reflexivity. Qed.

(** C7. [calculate_reward] returns [base_reward + stability_penalty +
    fall_penalty] (with Python's [+] between an [int] and a [float]), where
    [base_reward] is the level plus one for a blue block, [stability_penalty]
    is [previous_stability - current_stability] for a truthy
    [previous_stability] and [-current_stability] otherwise (in particular
    for a previous stability of exactly zero, of either sign, and for
    [None]), and [fall_penalty] is [-50] exactly when the tower has fallen.
    For every level of absolute value at most [level_bound] a reward is
    returned. The two documented examples evaluate to [4.2] and [-50.4]. *)
Theorem calculate_reward_formula :
  (forall level color is_fallen previous_stability current_stability,
      calculate_reward (level, color) is_fallen
        previous_stability current_stability
      = (base ← float_of_int
                  (level + (if decide (color = "b"%string) then 1 else 0));
         Some (base
               + (match previous_stability with
                  | Some p => if (p =? 0)%float
                              then - current_stability
                              else p - current_stability
                  | None => - current_stability
                  end)
               + (if is_fallen then -50 else 0))%float))
  /\ (forall current_stability,
         stability_penalty (Some 0%float) current_stability
           = (- current_stability)%float
         /\ stability_penalty (Some (-0)%float) current_stability
           = (- current_stability)%float
         /\ stability_penalty None current_stability
           = (- current_stability)%float)
  /\ (forall level color is_fallen previous_stability current_stability,
         - level_bound <= level <= level_bound ->
         is_Some (calculate_reward (level, color) is_fallen
                    previous_stability current_stability))
  /\ calculate_reward (3, "b"%string) false (Some 0.8%float) 0.6%float
       = Some 4.2%float
  /\ calculate_reward (0, "y"%string) true (Some 0.5%float) 0.9%float
       = Some (-50.4)%float.
Proof.
  split; [|split; [|split; [|split]]].
  - intros level color is_fallen prev cur.
    unfold calculate_reward, int_add_float, float_add_int, base_reward.
    assert (Hc : (if String.eqb color "b" then 1 else 0)
                 = (if decide (color = "b"%string) then 1 else 0)).
    { destruct (String.eqb_spec color "b"); destruct (decide (color = "b"%string));
        congruence. }
    rewrite Hc, float_of_int_fall_penalty.
    destruct (float_of_int (level + _)) as [base|]; [|reflexivity].
    unfold stability_penalty, truthy.
    destruct is_fallen, prev as [p|]; try destruct (p =? 0)%float; reflexivity.
  - intros cur. repeat split.
  - intros level color is_fallen prev cur Hl.
    unfold calculate_reward, int_add_float, float_add_int, base_reward.
    destruct (float_of_int_small (level + (if String.eqb color "b" then 1 else 0)))
      as [base Hbase].
    { destruct (String.eqb color "b"); lia. }
    rewrite Hbase, float_of_int_fall_penalty. cbn. eauto.
  - vm_compute. reflexivity.
  - vm_compute. reflexivity.
Qed.

Lemma calculate_reward_formula_witness :
  - level_bound <= 3 <= level_bound
  /\ is_Some (calculate_reward (3, "b"%string) false (Some 0.8%float) 0.6%float).
Proof.
  split; [unfold level_bound; lia|].
  apply (proj1 (proj2 (proj2 calculate_reward_formula))).
  unfold level_bound; lia.
Defined.

(** ** [get_possible_actions] *)

Lemma elem_of_action_space (ML MB : Z) (level color : Z) :
  (level, color) ∈ action_space ML MB <-> (0 <= level < ML) /\ (0 <= color < MB).
Proof.
  unfold action_space.
  rewrite elem_of_list_to_set, list_elem_of_bind.
  split.
  - intros (l & Hin & Hl).
    apply list_elem_of_bind in Hin as (c & Hin & Hc).
    apply list_elem_of_singleton in Hin. inversion Hin; subst.
    apply elem_of_seqZ in Hl, Hc. lia.
  - intros [Hl Hc]. exists level. split.
    + apply list_elem_of_bind. exists color.
      split; [apply list_elem_of_singleton; reflexivity|].
      apply elem_of_seqZ. lia.
    + apply elem_of_seqZ. lia.
Qed.

Lemma length_pairs (ls cs : list Z) :
  length (l ← ls; c ← cs; [(l, c)]) = (length ls * length cs)%nat.
Proof.
  induction ls as [|l ls IH]; csimpl; [reflexivity|].
  rewrite length_app, IH. f_equal.
  clear IH. induction cs as [|c cs IH]; csimpl; [reflexivity|].
  now rewrite IH.
Qed.

Lemma NoDup_pairs (ls cs : list Z) :
  NoDup ls -> NoDup cs -> NoDup (l ← ls; c ← cs; [(l, c)]).
Proof.
  intros Hls Hcs. apply NoDup_bind; [| |assumption].
  - intros l1 l2 [l c] _ _ H1 H2.
    apply list_elem_of_bind in H1 as (c1 & H1 & _).
    apply list_elem_of_bind in H2 as (c2 & H2 & _).
    apply list_elem_of_singleton in H1, H2. congruence.
  - intros l _. apply NoDup_bind; [| |assumption].
    + intros c1 c2 [l' c] _ _ H1 H2.
      apply list_elem_of_singleton in H1, H2. congruence.
    + intros c _. apply NoDup_singleton.
Qed.

(** C9. [get_possible_actions] returns exactly the pairs of the full
    cross-product of [range(MAX_LEVEL)] and [range(MAX_BLOCKS_IN_LEVEL)] that
    are not in [taken_actions], without duplicates; it returns the empty list
    when [taken_actions] covers the whole action space, and
    [MAX_LEVEL * MAX_BLOCKS_IN_LEVEL] pairs when [taken_actions] is empty (the
    two constants being counts, hence not negative). *)
Theorem get_possible_actions_spec (MAX_LEVEL MAX_BLOCKS_IN_LEVEL : Z)
    (taken_actions : gset (Z * Z)) :
  (forall level color,
      (level, color)
        ∈ get_possible_actions MAX_LEVEL MAX_BLOCKS_IN_LEVEL taken_actions
      <-> ((0 <= level < MAX_LEVEL) /\ (0 <= color < MAX_BLOCKS_IN_LEVEL))
          /\ (level, color) ∉ taken_actions)
  /\ NoDup (get_possible_actions MAX_LEVEL MAX_BLOCKS_IN_LEVEL taken_actions)
  /\ (action_space MAX_LEVEL MAX_BLOCKS_IN_LEVEL ⊆ taken_actions ->
      get_possible_actions MAX_LEVEL MAX_BLOCKS_IN_LEVEL taken_actions = [])
  /\ (0 <= MAX_LEVEL -> 0 <= MAX_BLOCKS_IN_LEVEL ->
      Z.of_nat (length (get_possible_actions MAX_LEVEL MAX_BLOCKS_IN_LEVEL ∅))
        = MAX_LEVEL * MAX_BLOCKS_IN_LEVEL).
Proof.
  unfold get_possible_actions. split; [|split; [|split]].
  - intros level color.
    rewrite elem_of_elements, elem_of_difference, elem_of_action_space.
    reflexivity.
  - apply NoDup_elements.
  - intros Hfull. apply elements_empty_iff, elem_of_equiv_empty.
    intros x [Hx Hn]%elem_of_difference. apply Hn, Hfull, Hx.
  - intros HL HB.
    rewrite difference_empty_L.
    change (length (elements ?X)) with (size X).
    unfold action_space. rewrite size_list_to_set.
    + rewrite length_pairs, !length_seqZ. lia.
    + apply NoDup_pairs; apply NoDup_seqZ.
Qed.

Lemma get_possible_actions_spec_witness :
  0 <= 9 /\ 0 <= 3
  /\ Z.of_nat (length (get_possible_actions 9 3 ∅)) = 9 * 3.
Proof.
  split; [lia|split; [lia|]].
  apply (proj2 (proj2 (proj2 (get_possible_actions_spec 9 3 ∅)))); lia.
Defined.

(* ===================================================================== *)
(** * Part IV: properties of the agent                                    *)
(* ===================================================================== *)

Section AgentProps.
Context `{Torch}.

(** ** Target networks *)

(** C8. After [update_target_net] the parameters of each target network are
    those of its policy network, whatever the target held before, the policy
    networks are untouched, and on every state each target network returns
    the output of its policy network. *)
Theorem update_target_net_copies (a : HierarchicalDQNAgent) :
  let a' := update_target_net a in
  weights (target_net_level_1 a') = weights (policy_net_level_1 a')
  /\ weights (target_net_level_2 a') = weights (policy_net_level_2 a')
  /\ policy_net_level_1 a' = policy_net_level_1 a
  /\ policy_net_level_2 a' = policy_net_level_2 a
  /\ (forall old1 old2,
         let b := update_target_net (set_targets a old1 old2) in
         weights (target_net_level_1 b) = weights (target_net_level_1 a')
         /\ weights (target_net_level_2 b) = weights (target_net_level_2 a'))
  /\ (forall state,
         call (target_net_level_1 a') state = call (policy_net_level_1 a') state
         /\ call (target_net_level_2 a') state
            = call (policy_net_level_2 a') state).
Proof. cbv zeta. repeat split; reflexivity. Qed.

(** C10. Right after construction each target network holds the parameters of
    its policy network (not those it was constructed with), so target and
    policy outputs agree on every state. *)
Theorem init_targets_are_copies (input_shape : InputShape)
    (num_actions_level_1 num_actions_level_2 : Z)
    (lr gamma0 epsilon_start epsilon_end0 epsilon_decay0 : R)
    (seed1 seed2 seed3 seed4 : nat) :
  let a := init input_shape num_actions_level_1 num_actions_level_2
             lr gamma0 epsilon_start epsilon_end0 epsilon_decay0
             seed1 seed2 seed3 seed4 in
  weights (policy_net_level_1 a) = dqn_new input_shape num_actions_level_1 seed1
  /\ weights (policy_net_level_2 a)
     = dqn_new input_shape num_actions_level_2 seed2
  /\ weights (target_net_level_1 a) = weights (policy_net_level_1 a)
  /\ weights (target_net_level_2 a) = weights (policy_net_level_2 a)
  /\ (forall state,
         call (target_net_level_1 a) state = call (policy_net_level_1 a) state
         /\ call (target_net_level_2 a) state
            = call (policy_net_level_2 a) state).
Proof. cbv zeta. repeat split; reflexivity. Qed.

(** ** The optimizer on too small a memory *)

(** C5. With fewer than [batch_size] stored transitions [optimize_model]
    returns normally and leaves the whole agent as it was: the four networks,
    the optimizers and the replay memory. The outcome does not depend on the
    random generator, and no loss is formed (the call succeeds even where
    forming one would raise). *)
Theorem optimize_model_insufficient_data (a : HierarchicalDQNAgent)
    (batch_size : Z) (rng : nat -> nat) :
  memory_len (memory a) < batch_size ->
  optimize_model a batch_size rng = Some a.
Proof.
  intros Hlen. unfold optimize_model.
  destruct (Z.ltb_spec (memory_len (memory a)) batch_size); [reflexivity|lia].
Qed.

(** ** The two losses *)

(** What [compute_losses] returns, spelled out. *)
Lemma compute_losses_Some (a : HierarchicalDQNAgent)
    (transitions : list Transition) (l1 l2 : Loss) :
  compute_losses a transitions = Some (l1, l2) ->
  exists next1 next2,
    next_q_values (weights (target_net_level_1 a))
      (map tr_next_state transitions) = Some next1
    /\ next_q_values (weights (target_net_level_2 a))
         (map tr_next_state transitions) = Some next2
    /\ l1 = mkLoss Level1
              (fun w => current_q_values w (map tr_state transitions)
                          (map (fun t => (tr_action t).1) transitions))
              (expected_q_values next1 (gamma a)
                 (map (fun t => done_flag (tr_done t)) transitions)
                 (map tr_reward transitions))
    /\ l2 = mkLoss Level2
              (fun w => current_q_values w (map tr_state transitions)
                          (map (fun t => (tr_action t).2) transitions))
              (expected_q_values next2 (gamma a)
                 (map (fun t => done_flag (tr_done t)) transitions)
                 (map tr_reward transitions)).
Proof.
  unfold compute_losses. destruct transitions as [|t ts]; [discriminate|].
  set (tr := t :: ts). intros Hc.
  destruct (current_q_values (weights (policy_net_level_1 a)) _ _);
    [|discriminate].
  destruct (next_q_values (weights (target_net_level_1 a)) _) as [next1|];
    [|discriminate].
  destruct (current_q_values (weights (policy_net_level_2 a)) _ _);
    [|discriminate].
  destruct (next_q_values (weights (target_net_level_2 a)) _) as [next2|];
    [|discriminate].
  cbn in Hc. injection Hc as <- <-. exists next1, next2. repeat split.
Qed.

(** ** The exploration schedule *)

(** The state of the agent after a call of [select_action], whatever the
    branch. *)
Lemma select_action_state (a : HierarchicalDQNAgent) (state : State)
    (d : Draws) :
  epsilon_decay a <> 0%R ->
  let a' := (select_action a state d).1 in
  steps_done a' = steps_done a + 1
  /\ epsilon a'
     = (epsilon_end a + (epsilon a - epsilon_end a)
          * exp (-1 * IZR (steps_done a + 1) / epsilon_decay a))%R
  /\ epsilon_end a' = epsilon_end a
  /\ epsilon_decay a' = epsilon_decay a.
Proof.
  intros Hd. unfold select_action. simpl.
  destruct (Req_dec_T (epsilon_decay a) 0); [contradiction|].
  destruct (Rgt_dec _ _); simpl; repeat split; reflexivity.
Qed.

Lemma decay_factor_bounds (n : Z) (decay : R) :
  0 < n -> (0 < decay)%R -> (0 < exp (-1 * IZR n / decay) < 1)%R.
Proof.
  intros Hn Hd. split; [apply exp_pos|].
  rewrite <- exp_0. apply exp_increasing.
  assert (0 < IZR n)%R by (apply IZR_lt; exact Hn).
  assert (0 < IZR n / decay)%R by (apply Rdiv_lt_0_compat; assumption).
  unfold Rdiv in *. rewrite Rmult_assoc. lra.
Qed.

(** One call: the invariant of the schedule and its strict progress. *)
Lemma select_action_decreases (a : HierarchicalDQNAgent) (state : State)
    (d : Draws) :
  (epsilon_end a < epsilon a)%R -> (0 < epsilon_decay a)%R ->
  0 <= steps_done a ->
  let a' := (select_action a state d).1 in
  (epsilon_end a < epsilon a' < epsilon a)%R.
Proof.
  intros He Hd Hs a'.
  destruct (select_action_state a state d) as (Hs' & He' & Hend & _);
    [lra|]. fold a' in Hs', He', Hend.
  rewrite He'.
  pose proof (decay_factor_bounds (steps_done a + 1) (epsilon_decay a))
    as Hf.
  destruct Hf as [Hf0 Hf1]; [lia|assumption|]. nra.
Qed.

(** ** The two branches of [select_action] *)

Lemma argmax_from_range (row : list R) (best_i : Z) (best : R) (i : Z) :
  0 <= best_i < i ->
  0 <= argmax_from best_i best i row < i + Z.of_nat (length row).
Proof.
  revert best_i best i. induction row as [|x row IH]; intros bi b i Hb; simpl.
  - lia.
  - destruct (Rlt_dec b x).
    + specialize (IH i x (i + 1)). lia.
    + specialize (IH bi b (i + 1)). lia.
Qed.

Lemma INT_TO_COLOR_lookup (i : Z) (color : string) :
  INT_TO_COLOR !! i = Some color ->
  (i = 0 /\ color = "y"%string) \/ (i = 1 /\ color = "b"%string)
  \/ (i = 2 /\ color = "g"%string).
Proof.
  unfold INT_TO_COLOR. intros Hl.
  destruct (decide (i = 0)) as [->|]; [left; split; [reflexivity|]|].
  { rewrite lookup_insert_eq in Hl. congruence. }
  rewrite lookup_insert_ne in Hl by congruence.
  destruct (decide (i = 1)) as [->|]; [right; left; split; [reflexivity|]|].
  { rewrite lookup_insert_eq in Hl. congruence. }
  rewrite lookup_insert_ne in Hl by congruence.
  destruct (decide (i = 2)) as [->|]; [right; right; split; [reflexivity|]|].
  { rewrite lookup_singleton_eq in Hl. congruence. }
  rewrite lookup_singleton_ne in Hl by congruence. discriminate.
Qed.

(** The Exploit branch stays within the outputs of the level network. *)
Lemma exploit_in_range (a : HierarchicalDQNAgent) (state : State)
    (level : Z) (color : string) :
  exploit a state = Some (level, color) ->
  0 <= level < Z.of_nat (length (call (policy_net_level_1 a) state))
  /\ (color = "y" \/ color = "b" \/ color = "g")%string.
Proof.
  unfold exploit, argmax. intros He.
  destruct (call (policy_net_level_1 a) state) as [|x row]; [discriminate|].
  destruct (call (policy_net_level_2 a) state) as [|x2 row2]; [discriminate|].
  cbn in He.
  destruct (INT_TO_COLOR !! argmax_from 0 x2 1 row2) as [c|] eqn:Hc;
    [|discriminate].
  cbn in He. injection He as <- <-. split.
  - pose proof (argmax_from_range row 0 x 1). simpl length. lia.
  - apply INT_TO_COLOR_lookup in Hc. tauto.
Qed.

(** When the draw of [random.random()] does not exceed the decayed [epsilon],
    the action is the one of the Explore branch. *)
Lemma select_action_explores (a : HierarchicalDQNAgent) (state : State)
    (d : Draws) :
  epsilon_decay a <> 0%R ->
  (random_random d <= epsilon (select_action a state d).1)%R ->
  (select_action a state d).2 = explore d.
Proof.
  unfold select_action. simpl.
  destruct (Req_dec_T (epsilon_decay a) 0); [contradiction|].
  destruct (Rgt_dec _ _) as [Hgt|]; simpl; [|reflexivity].
  intros _ Hle. exfalso. simpl in Hgt. lra.
Qed.

(** C4 (what the code does). The Explore branch never consults the networks;
    it returns a level among [0 .. 8] and a color that is yellow or blue: the
    color index [2], green, although a key of [INT_TO_COLOR], is never
    drawn. *)
Theorem explore_outcomes (d : Draws) :
  exists level color,
    explore d = Some (level, color)
    /\ 0 <= level < 9
    /\ (color = "y" \/ color = "b")%string
    /\ color <> "g"%string
    /\ INT_TO_COLOR !! 2 = Some "g"%string.
Proof.
  unfold explore, randrange. cbn.
  assert (Hl : 0 <= raw_level d mod 9 < 9) by (apply Z.mod_pos_bound; lia).
  assert (Hc : 0 <= raw_color d mod 2 < 2) by (apply Z.mod_pos_bound; lia).
  rewrite !Z.sub_0_r.
  assert (Hcases : raw_color d mod 2 = 0 \/ raw_color d mod 2 = 1) by lia.
  destruct Hcases as [-> | ->]; cbn; eexists _, _;
    (split; [reflexivity|]); repeat split;
    try lia; try discriminate; auto.
Qed.

(** ** Independence of the two updates *)

Lemma gradient_steps (a : HierarchicalDQNAgent) (l1 l2 : Loss) :
  leaf l1 = Level1 -> leaf l2 = Level2 ->
  let r := step Level2 (step Level1 (backward l2 (backward l1
             (zero_grad Level2 (zero_grad Level1 a))))) in
  policy_net_level_1 r
    = trained (policy_net_level_1 a) (optimizer_level_1 a) l1
  /\ optimizer_level_1 r
     = (adam_step (optimizer_level_1 a) (weights (policy_net_level_1 a))
          (autograd (loss_at l1) (weights (policy_net_level_1 a)))).1
  /\ policy_net_level_2 r
     = trained (policy_net_level_2 a) (optimizer_level_2 a) l2
  /\ optimizer_level_2 r
     = (adam_step (optimizer_level_2 a) (weights (policy_net_level_2 a))
          (autograd (loss_at l2) (weights (policy_net_level_2 a)))).1
  /\ target_net_level_1 r = target_net_level_1 a
  /\ target_net_level_2 r = target_net_level_2 a
  /\ memory r = memory a.
Proof.
  intros H1 H2. unfold backward. rewrite H1. cbn [policy_net zero_grad set_policy
    policy_net_level_1 policy_net_level_2 optimizer optimizer_level_1
    optimizer_level_2 weights grad training].
  rewrite H2. unfold step, trained. cbn.
  destruct (adam_step (optimizer_level_1 a) _ _) as [o1 w1] eqn:E1. cbn.
  destruct (adam_step (optimizer_level_2 a) _ _) as [o2 w2] eqn:E2. cbn.
  repeat split.
Qed.

Lemma Forall2_same_map {A B} (P : A -> A -> Prop) (f : A -> B)
    (l l' : list A) :
  (forall x y, P x y -> f x = f y) -> Forall2 P l l' -> map f l = map f l'.
Proof.
  intros Hf. induction 1 as [|x y l l' Hxy _ IH]; simpl; [reflexivity|].
  rewrite IH, (Hf x y Hxy). reflexivity.
Qed.

Lemma sample_from_same (k : PolicyNet) (n : nat) (rng : nat -> nat) :
  forall (buf buf' : list Transition) (j : nat),
    Forall2 (same_for k) buf buf' ->
    Forall2 (same_for k) (sample_from buf n rng j) (sample_from buf' n rng j).
Proof.
  induction n as [|n IH]; intros buf buf' j Hb; simpl; [constructor|].
  rewrite <- (Forall2_length _ _ _ Hb).
  set (i := (rng j mod length buf)%nat).
  destruct (buf !! i) as [t|] eqn:Ht.
  - destruct (Forall2_lookup_l _ _ _ _ _ Hb Ht) as (t' & Ht' & Hs).
    rewrite Ht'. constructor; [exact Hs|].
    apply IH, Forall2_delete, Hb.
  - pose proof (Forall2_length _ _ _ Hb) as Hlen.
    apply lookup_ge_None in Ht.
    rewrite (proj2 (lookup_ge_None buf' i)) by lia. constructor.
Qed.

Lemma optimize_model_Some (a r : HierarchicalDQNAgent) (batch_size : Z)
    (rng : nat -> nat) :
  optimize_model a batch_size rng = Some r ->
  (memory_len (memory a) < batch_size /\ r = a)
  \/ (batch_size <= memory_len (memory a)
      /\ exists transitions l1 l2,
           sample (memory a) batch_size rng = Some transitions
           /\ compute_losses a transitions = Some (l1, l2)
           /\ r = step Level2 (step Level1 (backward l2 (backward l1
                    (zero_grad Level2 (zero_grad Level1 a)))))).
Proof.
  unfold optimize_model.
  destruct (Z.ltb_spec (memory_len (memory a)) batch_size) as [Hlt|Hge].
  - intros [= <-]. left. split; [exact Hlt|reflexivity].
  - intros Ho. right. split; [exact Hge|].
    destruct (sample (memory a) batch_size rng) as [ts|]; [|discriminate].
    cbn in Ho.
    destruct (compute_losses a ts) as [[l1 l2]|] eqn:Hc; [|discriminate].
    cbn in Ho. injection Ho as <-. exists ts, l1, l2.
    split; [reflexivity|split; [exact Hc|reflexivity]].
Qed.

Lemma sample_same (k : PolicyNet) (m m' : ReplayMemory) (batch_size : Z)
    (rng : nat -> nat) (ts ts' : list Transition) :
  Forall2 (same_for k) (buffer m) (buffer m') ->
  sample m batch_size rng = Some ts -> sample m' batch_size rng = Some ts' ->
  Forall2 (same_for k) ts ts'.
Proof.
  intros Hb. unfold sample, memory_len.
  rewrite <- (Forall2_length _ _ _ Hb).
  destruct (_ || _); [discriminate|].
  intros [= <-] [= <-]. apply sample_from_same, Hb.
Qed.

(** The loss of sub-problem [k] is the same for two agents that agree on
    [gamma] and on the target network of [k], on batches that [k] cannot tell
    apart. *)
Lemma compute_losses_same (k : PolicyNet) (a a' : HierarchicalDQNAgent)
    (ts ts' : list Transition) (l1 l2 l1' l2' : Loss) :
  gamma a = gamma a' -> target_net k a = target_net k a' ->
  Forall2 (same_for k) ts ts' ->
  compute_losses a ts = Some (l1, l2) ->
  compute_losses a' ts' = Some (l1', l2') ->
  match k with Level1 => l1 = l1' | Level2 => l2 = l2' end.
Proof.
  intros Hg Ht Hts Hc Hc'.
  apply compute_losses_Some in Hc as (n1 & n2 & Hn1 & Hn2 & -> & ->).
  apply compute_losses_Some in Hc' as (n1' & n2' & Hn1' & Hn2' & -> & ->).
  assert (Hstate : map tr_state ts = map tr_state ts')
    by (apply (Forall2_same_map (same_for k)); [|exact Hts];
        intros x y Hxy; apply Hxy).
  assert (Hreward : map tr_reward ts = map tr_reward ts')
    by (apply (Forall2_same_map (same_for k)); [|exact Hts];
        intros x y Hxy; apply Hxy).
  assert (Hnext : map tr_next_state ts = map tr_next_state ts')
    by (apply (Forall2_same_map (same_for k)); [|exact Hts];
        intros x y Hxy; apply Hxy).
  assert (Hdone : map (fun t => done_flag (tr_done t)) ts
                  = map (fun t => done_flag (tr_done t)) ts').
  { apply (Forall2_same_map (same_for k)); [|exact Hts].
    intros x y Hxy. f_equal. apply Hxy. }
  assert (Hact : map (action_index k) ts = map (action_index k) ts')
    by (apply (Forall2_same_map (same_for k)); [|exact Hts];
        intros x y Hxy; apply Hxy).
  rewrite <- Hg, <- Hstate, <- Hreward, <- Hdone.
  rewrite <- Hnext in Hn1', Hn2'.
  destruct k; simpl in Ht, Hact; rewrite <- Ht in *.
  - rewrite Hn1 in Hn1'. injection Hn1' as <-.
    unfold action_index in Hact. rewrite <- Hact. reflexivity.
  - rewrite Hn2 in Hn2'. injection Hn2' as <-.
    unfold action_index in Hact. rewrite <- Hact. reflexivity.
Qed.

(** C6. One [optimize_model] step that trains replaces each policy network by
    the result of one optimizer step from that network's own parameters
    under its own loss (the gradient of the level loss for
    [policy_net_level_1], of the color loss for [policy_net_level_2]); the
    target networks are not written. Consequently the new state of a policy
    network and of its optimizer is the same for two agents that agree on the
    discount, on this policy network, its optimizer and its target network,
    and whose memories differ at most in the action index of the other
    sub-problem: nothing of the other sub-problem (its networks, its
    optimizer, its action indices, hence its loss) reaches it. *)
Theorem independent_updates :
  (forall (a r : HierarchicalDQNAgent) (batch_size : Z) (rng : nat -> nat),
      batch_size <= memory_len (memory a) ->
      optimize_model a batch_size rng = Some r ->
      exists transitions loss_level_1 loss_level_2,
        sample (memory a) batch_size rng = Some transitions
        /\ compute_losses a transitions = Some (loss_level_1, loss_level_2)
        /\ policy_net_level_1 r
           = trained (policy_net_level_1 a) (optimizer_level_1 a) loss_level_1
        /\ policy_net_level_2 r
           = trained (policy_net_level_2 a) (optimizer_level_2 a) loss_level_2
        /\ target_net_level_1 r = target_net_level_1 a
        /\ target_net_level_2 r = target_net_level_2 a)
  /\ (forall (k : PolicyNet) (a a' r r' : HierarchicalDQNAgent)
        (batch_size : Z) (rng : nat -> nat),
        gamma a = gamma a' ->
        policy_net k a = policy_net k a' ->
        optimizer k a = optimizer k a' ->
        target_net k a = target_net k a' ->
        Forall2 (same_for k) (buffer (memory a)) (buffer (memory a')) ->
        optimize_model a batch_size rng = Some r ->
        optimize_model a' batch_size rng = Some r' ->
        policy_net k r = policy_net k r' /\ optimizer k r = optimizer k r').
Proof.
  split.
  - intros a r bs rng Hge Ho.
    apply optimize_model_Some in Ho as [[Hlt _]|(_ & ts & l1 & l2 & Hs & Hc & ->)];
      [lia|].
    exists ts, l1, l2.
    pose proof Hc as Hc'.
    apply compute_losses_Some in Hc' as (n1 & n2 & _ & _ & E1 & E2).
    destruct (gradient_steps a l1 l2) as (P1 & _ & P2 & _ & T1 & T2 & _);
      [subst l1; reflexivity|subst l2; reflexivity|].
    repeat split; assumption.
  - intros k a a' r r' bs rng Hg Hp Hopt Ht Hb Ho Ho'.
    pose proof (Forall2_length _ _ _ Hb) as Hlen.
    assert (Hmem : memory_len (memory a) = memory_len (memory a'))
      by (unfold memory_len; congruence).
    apply optimize_model_Some in Ho
      as [[Hlt ->]|(Hge & ts & l1 & l2 & Hs & Hc & ->)];
    apply optimize_model_Some in Ho'
      as [[Hlt' ->]|(Hge' & ts' & l1' & l2' & Hs' & Hc' & ->)];
      try lia.
    + split; assumption.
    + pose proof (sample_same k _ _ _ _ _ _ Hb Hs Hs') as Hts.
      pose proof (compute_losses_same k a a' ts ts' l1 l2 l1' l2'
                    Hg Ht Hts Hc Hc') as Hl.
      pose proof Hc as E. pose proof Hc' as E'.
      apply compute_losses_Some in E as (n1 & n2 & _ & _ & E1 & E2).
      apply compute_losses_Some in E' as (n1' & n2' & _ & _ & E1' & E2').
      destruct (gradient_steps a l1 l2) as (P1 & O1 & P2 & O2 & _);
        [subst l1; reflexivity|subst l2; reflexivity|].
      destruct (gradient_steps a' l1' l2') as (P1' & O1' & P2' & O2' & _);
        [subst l1'; reflexivity|subst l2'; reflexivity|].
      destruct k; cbn [policy_net optimizer] in Hp, Hopt |- *.
      * rewrite P1, P1', O1, O1', Hp, Hopt, Hl. split; reflexivity.
      * rewrite P2, P2', O2, O2', Hp, Hopt, Hl. split; reflexivity.
Qed.

End AgentProps.

Lemma optimize_model_insufficient_data_witness :
  let a := init (H := const_torch) tt 9 3 (1 / 10000) (99 / 100) 1 (1 / 10)
             5000 1 2 3 4 in
  memory_len (memory a) < 32 /\ optimize_model a 32 (fun _ => O) = Some a.
Proof.
  cbv zeta. split; [reflexivity|].
  apply (optimize_model_insufficient_data (H := const_torch)). reflexivity.
Defined.

(* ===================================================================== *)
(** * Part V: the results at concrete agents                              *)
(* ===================================================================== *)

Lemma independent_updates_witness :
  let a := remember default_agent terminal_transition in
  let a' := remember other_color_agent terminal_transition' in
  exists r r',
    optimize_model a 1 (fun _ => O) = Some r
    /\ optimize_model a' 1 (fun _ => O) = Some r'
    /\ policy_net_level_2 a <> policy_net_level_2 a'
    /\ policy_net_level_1 r = policy_net_level_1 r'.
Proof.
  cbv zeta. eexists _, _.
  split; [reflexivity|split; [reflexivity|split]].
  - intros Heq. apply (f_equal weights) in Heq. simpl in Heq.
    injection Heq as Heq. lra.
  - match goal with
    | |- policy_net_level_1 ?r = policy_net_level_1 ?r' =>
        apply (proj2 (independent_updates (H := const_torch)) Level1
                 (remember default_agent terminal_transition)
                 (remember other_color_agent terminal_transition')
                 r r' 1 (fun _ => O))
    end; try reflexivity.
    repeat constructor.
Defined.

(** C3 (failing input). An agent built with [num_actions_level_1 = 3], whose
    level network has three outputs, returns level [8] from the Explore
    branch. *)
Theorem select_action_level_beyond_num_actions :
  length (call (policy_net_level_1 three_level_agent) tt) = 3%nat
  /\ (select_action three_level_agent tt explore_draws).2
     = Some (8, "y"%string)
  /\ ~ (0 <= 8 < 3).
Proof.
  split; [reflexivity|split; [|lia]].
  rewrite (select_action_explores (H := const_torch)).
  - reflexivity.
  - simpl. lra.
  - destruct (select_action_decreases (H := const_torch) three_level_agent
                tt explore_draws) as [Hlo _];
      [simpl; lra|simpl; lra|simpl; lia|].
    simpl epsilon_end in Hlo. simpl random_random. lra.
Qed.

(* ===================================================================== *)
(** * Part VI: further properties of [src/utils.py]                       *)
(* ===================================================================== *)

Lemma size_action_space (ML MB : Z) :
  0 <= ML -> 0 <= MB -> Z.of_nat (size (action_space ML MB)) = ML * MB.
Proof.
  intros HL HB. unfold action_space. rewrite size_list_to_set.
  - rewrite length_pairs, !length_seqZ. lia.
  - apply NoDup_pairs; apply NoDup_seqZ.
Qed.

(** X1. The number of remaining actions: the size of the action space minus the
    number of taken actions that belong to it; taken pairs that are no
    actions of the game do not count. *)
Theorem get_possible_actions_count (MAX_LEVEL MAX_BLOCKS_IN_LEVEL : Z)
    (taken_actions : gset (Z * Z)) :
  0 <= MAX_LEVEL -> 0 <= MAX_BLOCKS_IN_LEVEL ->
  Z.of_nat (length (get_possible_actions MAX_LEVEL MAX_BLOCKS_IN_LEVEL
                      taken_actions))
  = MAX_LEVEL * MAX_BLOCKS_IN_LEVEL
    - Z.of_nat (size (action_space MAX_LEVEL MAX_BLOCKS_IN_LEVEL
                        ∩ taken_actions)).
Proof.
  intros HL HB. unfold get_possible_actions.
  change (length (elements ?X)) with (size X).
  rewrite size_difference_alt.
  pose proof (size_action_space MAX_LEVEL MAX_BLOCKS_IN_LEVEL HL HB) as Hs.
  assert (Hle : (size (action_space MAX_LEVEL MAX_BLOCKS_IN_LEVEL
                         ∩ taken_actions)
                 <= size (action_space MAX_LEVEL MAX_BLOCKS_IN_LEVEL))%nat).
  { apply subseteq_size. intros x Hx. apply elem_of_intersection in Hx. tauto. }
  lia.
Qed.

Lemma get_possible_actions_count_witness :
  0 <= 9 /\ 0 <= 3
  /\ Z.of_nat (length (get_possible_actions 9 3 {[ (0, 1); (20, 7) ]}))
     = 9 * 3 - Z.of_nat (size (action_space 9 3 ∩ {[ (0, 1); (20, 7) ]})).
Proof.
  split; [lia|split; [lia|]].
  apply (get_possible_actions_count 9 3 {[ (0, 1); (20, 7) ]}); lia.
Defined.

(** X2. Taking one of the possible actions removes exactly this action: the
    possible actions before are, up to order, the taken one followed by the
    possible actions after. *)
Theorem get_possible_actions_take (MAX_LEVEL MAX_BLOCKS_IN_LEVEL : Z)
    (taken_actions : gset (Z * Z)) (action : Z * Z) :
  action ∈ get_possible_actions MAX_LEVEL MAX_BLOCKS_IN_LEVEL taken_actions ->
  get_possible_actions MAX_LEVEL MAX_BLOCKS_IN_LEVEL taken_actions
  ≡ₚ action :: get_possible_actions MAX_LEVEL MAX_BLOCKS_IN_LEVEL
                 ({[ action ]} ∪ taken_actions).
Proof.
  unfold get_possible_actions. intros Hin.
  apply elem_of_elements, elem_of_difference in Hin as [Hs Ht].
  rewrite <- elements_union_singleton.
  - apply elements_proper. intros x.
    rewrite !elem_of_union, !elem_of_difference, elem_of_union,
      elem_of_singleton.
    split.
    + intros [Hx Hn]. destruct (decide (x = action)); [left; assumption|].
      right. split; [assumption|]. intros [?|?]; contradiction.
    + intros [->|[Hx Hn]]; [split; assumption|].
      split; [assumption|]. intros ?. apply Hn. right. assumption.
  - rewrite elem_of_difference, elem_of_union, elem_of_singleton.
    intros [_ Hn]. apply Hn. left. reflexivity.
Qed.

Lemma get_possible_actions_take_witness :
  (2, 1) ∈ get_possible_actions 9 3 {[ (0, 0) ]}
  /\ get_possible_actions 9 3 {[ (0, 0) ]}
     ≡ₚ (2, 1) :: get_possible_actions 9 3 ({[ (2, 1) ]} ∪ {[ (0, 0) ]}).
Proof.
  assert (Hin : (2, 1) ∈ get_possible_actions 9 3 {[ (0, 0) ]}).
  { apply elem_of_elements, elem_of_difference. split.
    - apply elem_of_action_space. lia.
    - rewrite elem_of_singleton. intros [=]. }
  split; [exact Hin|].
  apply (get_possible_actions_take 9 3 {[ (0, 0) ]} (2, 1) Hin).
Defined.

(** X3. A range that is empty leaves no action: with a non-positive [MAX_LEVEL]
    or [MAX_BLOCKS_IN_LEVEL] the result is the empty list, whatever was
    taken. *)
Theorem get_possible_actions_empty_range (MAX_LEVEL MAX_BLOCKS_IN_LEVEL : Z)
    (taken_actions : gset (Z * Z)) :
  MAX_LEVEL <= 0 \/ MAX_BLOCKS_IN_LEVEL <= 0 ->
  get_possible_actions MAX_LEVEL MAX_BLOCKS_IN_LEVEL taken_actions = [].
Proof.
  intros Hr. unfold get_possible_actions.
  apply elements_empty_iff, elem_of_equiv_empty.
  intros [level color] [Hx _]%elem_of_difference.
  apply elem_of_action_space in Hx. lia.
Qed.

Lemma get_possible_actions_empty_range_witness :
  (0 <= 0 \/ 3 <= 0) /\ get_possible_actions 0 3 {[ (1, 1) ]} = [].
Proof.
  assert (Hr : 0 <= 0 \/ 3 <= 0) by (left; lia).
  split; [exact Hr|].
  apply (get_possible_actions_empty_range 0 3 {[ (1, 1) ]} Hr).
Defined.

(** X4. Only the taken actions that are actions of the game matter: two sets of
    taken actions with the same legal members leave the same possible
    actions, up to order. *)
Theorem get_possible_actions_legal_part (MAX_LEVEL MAX_BLOCKS_IN_LEVEL : Z)
    (taken_actions taken_actions' : gset (Z * Z)) :
  action_space MAX_LEVEL MAX_BLOCKS_IN_LEVEL ∩ taken_actions
    = action_space MAX_LEVEL MAX_BLOCKS_IN_LEVEL ∩ taken_actions' ->
  get_possible_actions MAX_LEVEL MAX_BLOCKS_IN_LEVEL taken_actions
  ≡ₚ get_possible_actions MAX_LEVEL MAX_BLOCKS_IN_LEVEL taken_actions'.
Proof.
  intros Heq. unfold get_possible_actions. apply elements_proper.
  intros x. rewrite !elem_of_difference.
  assert (Hx : x ∈ action_space MAX_LEVEL MAX_BLOCKS_IN_LEVEL ∩ taken_actions
               <-> x ∈ action_space MAX_LEVEL MAX_BLOCKS_IN_LEVEL
                        ∩ taken_actions') by (rewrite Heq; reflexivity).
  rewrite !elem_of_intersection in Hx. tauto.
Qed.

Lemma get_possible_actions_legal_part_witness :
  action_space 9 3 ∩ {[ (0, 1); (20, 7) ]} = action_space 9 3 ∩ {[ (0, 1) ]}
  /\ get_possible_actions 9 3 {[ (0, 1); (20, 7) ]}
     ≡ₚ get_possible_actions 9 3 {[ (0, 1) ]}.
Proof.
  assert (Heq : action_space 9 3 ∩ {[ (0, 1); (20, 7) ]}
                = action_space 9 3 ∩ {[ (0, 1) ]}).
  { apply set_eq. intros [level color].
    rewrite !elem_of_intersection, elem_of_action_space, elem_of_union,
      !elem_of_singleton.
    split; [|tauto]. intros [Hr [H1|H2]]; [tauto|].
    injection H2 as -> ->. lia. }
  split; [exact Heq|].
  apply (get_possible_actions_legal_part 9 3 _ _ Heq).
Defined.

(** X5. A blue block is worth exactly one level: removing the blue block of a
    level earns what removing a block of another color one level higher
    earns, and all colors but blue earn the same. *)
Theorem calculate_reward_blue_bonus (level : Z) (color color' : string)
    (is_fallen : bool) (previous_stability : option float)
    (current_stability : float) :
  color <> "b"%string -> color' <> "b"%string ->
  calculate_reward (level, "b"%string) is_fallen
    previous_stability current_stability
  = calculate_reward (level + 1, color) is_fallen
      previous_stability current_stability
  /\ calculate_reward (level, color) is_fallen
       previous_stability current_stability
     = calculate_reward (level, color') is_fallen
         previous_stability current_stability.
Proof.
  intros Hc Hc'. unfold calculate_reward, base_reward.
  destruct (String.eqb_spec color "b"); [contradiction|].
  destruct (String.eqb_spec color' "b"); [contradiction|].
  simpl String.eqb. rewrite Z.add_0_r. split; reflexivity.
Qed.

Lemma calculate_reward_blue_bonus_witness :
  "y"%string <> "b"%string /\ "g"%string <> "b"%string
  /\ calculate_reward (3, "b"%string) false (Some 0.8%float) 0.6%float
     = calculate_reward (3 + 1, "y"%string) false (Some 0.8%float) 0.6%float.
Proof.
  assert (H1 : "y"%string <> "b"%string) by discriminate.
  assert (H2 : "g"%string <> "b"%string) by discriminate.
  split; [exact H1|split; [exact H2|]].
  apply (proj1 (calculate_reward_blue_bonus 3 "y" "g" false
                  (Some 0.8%float) 0.6%float H1 H2)).
Defined.

(* ===================================================================== *)
(** * Part VII: further properties of the agent                           *)
(* ===================================================================== *)

Section MoreAgentProps.
Context `{Torch}.

(** ** [select_action] *)

(** X6. A call of [select_action] writes [steps_done] and [epsilon] only: the
    discount, the floor and the decay of the schedule, the four networks, the
    optimizers and the replay memory are those of before, in both branches
    and when the call raises; [steps_done] has grown by one in every case. *)
Theorem select_action_frame (a : HierarchicalDQNAgent) (state : State)
    (d : Draws) :
  let a' := (select_action a state d).1 in
  steps_done a' = steps_done a + 1
  /\ gamma a' = gamma a
  /\ epsilon_end a' = epsilon_end a
  /\ epsilon_decay a' = epsilon_decay a
  /\ policy_net_level_1 a' = policy_net_level_1 a
  /\ policy_net_level_2 a' = policy_net_level_2 a
  /\ target_net_level_1 a' = target_net_level_1 a
  /\ target_net_level_2 a' = target_net_level_2 a
  /\ optimizer_level_1 a' = optimizer_level_1 a
  /\ optimizer_level_2 a' = optimizer_level_2 a
  /\ memory a' = memory a.
Proof.
  unfold select_action. simpl.
  destruct (Req_dec_T (epsilon_decay a) 0); [simpl; repeat split|].
  destruct (Rgt_dec _ _); simpl; repeat split.
Qed.

(** When the draw of [random.random()] exceeds the decayed [epsilon], the
    action is the one of the Exploit branch, computed from the policy
    networks of the agent. *)
Lemma select_action_exploits (a : HierarchicalDQNAgent) (state : State)
    (d : Draws) :
  epsilon_decay a <> 0%R ->
  (random_random d > epsilon (select_action a state d).1)%R ->
  (select_action a state d).2 = exploit a state.
Proof.
  unfold select_action. simpl.
  destruct (Req_dec_T (epsilon_decay a) 0); [contradiction|].
  destruct (Rgt_dec _ _) as [|Hle]; simpl; [reflexivity|].
  intros _ Hgt. exfalso. simpl in Hle. lra.
Qed.

(** [argmax_from] over the rest of a row whose scanned part is [seen]: the
    result addresses an entry that no entry of the whole row exceeds. *)
Lemma argmax_from_is_max (row seen : list R) (best_i : Z) (best : R) :
  0 <= best_i -> seen !! Z.to_nat best_i = Some best ->
  Forall (fun x => x <= best)%R seen ->
  let i := argmax_from best_i best (Z.of_nat (length seen)) row in
  0 <= i
  /\ exists q, (seen ++ row) !! Z.to_nat i = Some q
               /\ Forall (fun x => x <= q)%R (seen ++ row).
Proof.
  revert seen best_i best.
  induction row as [|x row IH]; intros seen bi b Hbi Hb Hall; simpl.
  - split; [exact Hbi|]. exists b. rewrite app_nil_r. auto.
  - replace (Z.of_nat (length seen) + 1) with (Z.of_nat (length (seen ++ [x])))
      by (rewrite length_app; simpl; lia).
    replace (seen ++ x :: row) with ((seen ++ [x]) ++ row)
      by (rewrite <- app_assoc; reflexivity).
    destruct (Rlt_dec b x) as [Hlt|Hge].
    + apply IH.
      * lia.
      * rewrite Nat2Z.id. apply list_lookup_middle. reflexivity.
      * apply Forall_app. split.
        -- eapply Forall_impl; [exact Hall|]. intros y Hy. simpl in Hy. lra.
        -- constructor; [lra|constructor].
    + apply IH.
      * exact Hbi.
      * apply lookup_app_l_Some. exact Hb.
      * apply Forall_app. split; [exact Hall|].
        constructor; [lra|constructor].
Qed.

Lemma argmax_is_max (row : list R) (i : Z) :
  argmax row = Some i ->
  0 <= i
  /\ exists q, row !! Z.to_nat i = Some q /\ Forall (fun x => x <= q)%R row.
Proof.
  destruct row as [|x row]; simpl; [discriminate|]. intros [= <-].
  apply (argmax_from_is_max row [x] 0 x); [lia|reflexivity|].
  constructor; [lra|constructor].
Qed.

(** X8. The Exploit branch is greedy: the returned level is the position of an
    output of the level network that no other output exceeds, and the
    returned color is the color of such a position of the color network. *)
Theorem select_action_greedy (a : HierarchicalDQNAgent) (state : State)
    (d : Draws) (level : Z) (color : string) :
  epsilon_decay a <> 0%R ->
  (random_random d > epsilon (select_action a state d).1)%R ->
  (select_action a state d).2 = Some (level, color) ->
  (exists q,
      call (policy_net_level_1 a) state !! Z.to_nat level = Some q
      /\ Forall (fun x => x <= q)%R (call (policy_net_level_1 a) state))
  /\ 0 <= level
  /\ (exists color_index q,
         INT_TO_COLOR !! color_index = Some color
         /\ 0 <= color_index
         /\ call (policy_net_level_2 a) state !! Z.to_nat color_index = Some q
         /\ Forall (fun x => x <= q)%R (call (policy_net_level_2 a) state)).
Proof.
  intros Hd Hu. rewrite (select_action_exploits a state d Hd Hu).
  unfold exploit. intros He.
  destruct (argmax (call (policy_net_level_1 a) state)) as [l|] eqn:Hl;
    [|discriminate].
  destruct (argmax (call (policy_net_level_2 a) state)) as [ci|] eqn:Hc;
    [|discriminate].
  cbn in He.
  destruct (INT_TO_COLOR !! ci) as [c|] eqn:Hcol; [|discriminate].
  cbn in He. injection He as <- <-.
  apply argmax_is_max in Hl as [Hl0 Hlq].
  apply argmax_is_max in Hc as [Hc0 (q & Hq & Hmax)].
  split; [exact Hlq|split; [exact Hl0|]].
  exists ci, q. auto.
Qed.

Lemma explore_is_Some (d : Draws) : is_Some (explore d).
Proof.
  unfold explore, randrange. cbn. rewrite !Z.sub_0_r.
  assert (Hc : 0 <= raw_color d mod 2 < 2) by (apply Z.mod_pos_bound; lia).
  assert (Hcases : raw_color d mod 2 = 0 \/ raw_color d mod 2 = 1) by lia.
  destruct Hcases as [-> | ->]; cbn; eauto.
Qed.

Lemma INT_TO_COLOR_is_Some (i : Z) : 0 <= i < 3 -> is_Some (INT_TO_COLOR !! i).
Proof.
  intros Hi.
  assert (Hcases : i = 0 \/ i = 1 \/ i = 2) by lia.
  destruct Hcases as [-> | [-> | ->]]; vm_compute; eauto.
Qed.

Lemma INT_TO_COLOR_None (i : Z) : 3 <= i -> INT_TO_COLOR !! i = None.
Proof.
  intros Hi. destruct (INT_TO_COLOR !! i) as [c|] eqn:Hc; [|reflexivity].
  apply INT_TO_COLOR_lookup in Hc. lia.
Qed.


(** X10. A color network whose largest output sits at position three or beyond
    makes the Exploit branch raise (the position has no entry in
    [INT_TO_COLOR]): no action is returned. *)
Theorem select_action_key_error (a : HierarchicalDQNAgent) (state : State)
    (d : Draws) (color_index : Z) :
  epsilon_decay a <> 0%R ->
  (random_random d > epsilon (select_action a state d).1)%R ->
  argmax (call (policy_net_level_2 a) state) = Some color_index ->
  3 <= color_index ->
  (select_action a state d).2 = None.
Proof.
  intros Hd Hu Hc Hi. rewrite (select_action_exploits a state d Hd Hu).
  unfold exploit. rewrite Hc.
  destruct (argmax (call (policy_net_level_1 a) state)); [|reflexivity].
  cbn. rewrite (INT_TO_COLOR_None color_index Hi). reflexivity.
Qed.

(** X11. The returned action depends on the schedule state and on the two policy
    networks only: agents that agree on these return the same action, however
    their target networks, optimizers, memories and discounts differ. *)
Theorem select_action_reads_policy_only (a b : HierarchicalDQNAgent)
    (state : State) (d : Draws) :
  epsilon a = epsilon b -> epsilon_end a = epsilon_end b ->
  epsilon_decay a = epsilon_decay b -> steps_done a = steps_done b ->
  policy_net_level_1 a = policy_net_level_1 b ->
  policy_net_level_2 a = policy_net_level_2 b ->
  (select_action a state d).2 = (select_action b state d).2.
Proof.
  intros He Hend Hdec Hs H1 H2. unfold select_action, decayed_epsilon. simpl.
  rewrite He, Hend, Hdec, Hs.
  destruct (Req_dec_T (epsilon_decay b) 0); [reflexivity|].
  destruct (Rgt_dec _ _); simpl; [|reflexivity].
  unfold exploit. simpl. rewrite H1, H2. reflexivity.
Qed.

(** ** [optimize_model], continued *)

Lemma gradient_steps_keep (a : HierarchicalDQNAgent) (l1 l2 : Loss) :
  leaf l1 = Level1 -> leaf l2 = Level2 ->
  let r := step Level2 (step Level1 (backward l2 (backward l1
             (zero_grad Level2 (zero_grad Level1 a))))) in
  gamma r = gamma a /\ epsilon r = epsilon a
  /\ epsilon_end r = epsilon_end a /\ epsilon_decay r = epsilon_decay a
  /\ steps_done r = steps_done a
  /\ training (policy_net_level_1 r) = training (policy_net_level_1 a)
  /\ training (policy_net_level_2 r) = training (policy_net_level_2 a).
Proof.
  intros H1 H2. unfold backward. rewrite H1. cbn [policy_net zero_grad set_policy
    policy_net_level_1 policy_net_level_2 optimizer optimizer_level_1
    optimizer_level_2 weights grad training].
  rewrite H2. unfold step. cbn.
  destruct (adam_step (optimizer_level_1 a) _ _) as [o1 w1]. cbn.
  destruct (adam_step (optimizer_level_2 a) _ _) as [o2 w2]. cbn.
  repeat split.
Qed.

Lemma optimize_model_keeps (a r : HierarchicalDQNAgent) (batch_size : Z)
    (rng : nat -> nat) :
  optimize_model a batch_size rng = Some r ->
  target_net_level_1 r = target_net_level_1 a
  /\ target_net_level_2 r = target_net_level_2 a
  /\ memory r = memory a
  /\ gamma r = gamma a /\ epsilon r = epsilon a
  /\ epsilon_end r = epsilon_end a /\ epsilon_decay r = epsilon_decay a
  /\ steps_done r = steps_done a
  /\ training (policy_net_level_1 r) = training (policy_net_level_1 a)
  /\ training (policy_net_level_2 r) = training (policy_net_level_2 a).
Proof.
  intros Ho.
  apply optimize_model_Some in Ho
    as [[_ ->]|(_ & ts & l1 & l2 & _ & Hc & ->)]; [repeat split|].
  apply compute_losses_Some in Hc as (n1 & n2 & _ & _ & E1 & E2).
  destruct (gradient_steps a l1 l2) as (_ & _ & _ & _ & T1 & T2 & M);
    [subst l1; reflexivity|subst l2; reflexivity|].
  destruct (gradient_steps_keep a l1 l2) as (K1 & K2 & K3 & K4 & K5 & K6 & K7);
    [subst l1; reflexivity|subst l2; reflexivity|].
  repeat split; assumption.
Qed.

(** X14. A call of [optimize_model] that returns writes the two policy networks
    and their optimizers only: the target networks, the replay memory, the
    discount and the exploration schedule are those of before, and the policy
    networks keep their train/eval mode. *)
Theorem optimize_model_frame (a r : HierarchicalDQNAgent) (batch_size : Z)
    (rng : nat -> nat) :
  optimize_model a batch_size rng = Some r ->
  target_net_level_1 r = target_net_level_1 a
  /\ target_net_level_2 r = target_net_level_2 a
  /\ memory r = memory a
  /\ gamma r = gamma a /\ epsilon r = epsilon a
  /\ epsilon_end r = epsilon_end a /\ epsilon_decay r = epsilon_decay a
  /\ steps_done r = steps_done a
  /\ training (policy_net_level_1 r) = training (policy_net_level_1 a)
  /\ training (policy_net_level_2 r) = training (policy_net_level_2 a).
Proof. apply optimize_model_keeps. Qed.

(** X15. The target networks are snapshots: after [update_target_net] followed by
    a training step, each target network still holds the parameters that its
    policy network had before the step. *)
Theorem target_is_snapshot (a r : HierarchicalDQNAgent) (batch_size : Z)
    (rng : nat -> nat) :
  optimize_model (update_target_net a) batch_size rng = Some r ->
  weights (target_net_level_1 r) = weights (policy_net_level_1 a)
  /\ weights (target_net_level_2 r) = weights (policy_net_level_2 a).
Proof.
  intros Ho. apply optimize_model_keeps in Ho as (T1 & T2 & _).
  rewrite T1, T2. split; reflexivity.
Qed.

(** X16. With [batch_size = 0] the call is no no-op: the empty sample cannot be
    unpacked into its five columns and the call raises, whatever the memory
    holds. *)
Theorem optimize_model_empty_batch (a : HierarchicalDQNAgent)
    (rng : nat -> nat) :
  optimize_model a 0 rng = None.
Proof.
  unfold optimize_model, sample.
  assert (Hlen : 0 <= memory_len (memory a)) by (unfold memory_len; lia).
  destruct (Z.ltb_spec (memory_len (memory a)) 0); [lia|].
  reflexivity.
Qed.

Lemma current_q_values_is_Some (w : Params) (ts : list Transition)
    (ix : Transition -> Z) :
  is_Some (current_q_values w (map tr_state ts) (map ix ts))
  <-> Forall (fun t => 0 <= ix t
                       < Z.of_nat (length (forward w (tr_state t)))) ts.
Proof.
  unfold current_q_values, gather. rewrite mapM_is_Some.
  induction ts as [|t ts IH]; simpl.
  - split; constructor.
  - rewrite !Forall_cons, IH. simpl.
    destruct (Z.ltb_spec (ix t) 0) as [Hneg|Hpos].
    + split; [intros [[? [=]] _]|intros [? _]; lia].
    + rewrite lookup_lt_is_Some. split; intros [? ?]; split; auto; lia.
Qed.

Lemma next_q_values_is_Some (w : Params) (ts : list Transition) :
  is_Some (next_q_values w (map tr_next_state ts))
  <-> Forall (fun t => forward w (tr_next_state t) <> []) ts.
Proof.
  unfold next_q_values. rewrite mapM_is_Some.
  induction ts as [|t ts IH]; simpl.
  - split; constructor.
  - rewrite !Forall_cons, IH. simpl.
    destruct (forward w (tr_next_state t)); simpl.
    + split; [intros [[? [=]] _]|intros [? _]; contradiction].
    + split; intros [_ ?]; split; eauto.
Qed.

(** The two losses can be formed exactly for a batch that is not empty and
    whose transitions are all processable. *)
Lemma compute_losses_is_Some (a : HierarchicalDQNAgent)
    (ts : list Transition) :
  is_Some (compute_losses a ts) <-> ts <> [] /\ Forall (processable a) ts.
Proof.
  pose proof (current_q_values_is_Some (weights (policy_net_level_1 a)) ts
                (fun t => (tr_action t).1)) as C1.
  pose proof (current_q_values_is_Some (weights (policy_net_level_2 a)) ts
                (fun t => (tr_action t).2)) as C2.
  pose proof (next_q_values_is_Some (weights (target_net_level_1 a)) ts) as N1.
  pose proof (next_q_values_is_Some (weights (target_net_level_2 a)) ts) as N2.
  assert (HP : Forall (processable a) ts
               <-> Forall (fun t => 0 <= (tr_action t).1
                     < Z.of_nat (length (forward (weights (policy_net_level_1 a))
                                           (tr_state t)))) ts
                   /\ Forall (fun t => 0 <= (tr_action t).2
                        < Z.of_nat (length (forward (weights (policy_net_level_2 a))
                                              (tr_state t)))) ts
                   /\ Forall (fun t => forward (weights (target_net_level_1 a))
                                         (tr_next_state t) <> []) ts
                   /\ Forall (fun t => forward (weights (target_net_level_2 a))
                                         (tr_next_state t) <> []) ts).
  { rewrite <- !Forall_and. apply Forall_proper; [|reflexivity].
    intros t. unfold processable, call. tauto. }
  rewrite HP, <- C1, <- C2, <- N1, <- N2. clear HP C1 C2 N1 N2.
  unfold compute_losses. destruct ts as [|t ts].
  - split; [intros [? [=]]|intros [? _]; contradiction].
  - set (tr := t :: ts).
    destruct (current_q_values (weights (policy_net_level_1 a)) _ _);
      destruct (next_q_values (weights (target_net_level_1 a)) _);
      destruct (current_q_values (weights (policy_net_level_2 a)) _ _);
      destruct (next_q_values (weights (target_net_level_2 a)) _);
      cbn; (split; [intros Hs|intros (_ & H1 & H2 & H3 & H4)]);
      try (destruct Hs as [? Hs]; discriminate Hs);
      try (destruct H1 as [? H1]; discriminate H1);
      try (destruct H2 as [? H2]; discriminate H2);
      try (destruct H3 as [? H3]; discriminate H3);
      try (destruct H4 as [? H4]; discriminate H4);
      try (repeat split; eauto; discriminate).
Qed.

Lemma sample_from_Forall (P : Transition -> Prop) (k : nat)
    (rng : nat -> nat) :
  forall (buf : list Transition) (j : nat),
    Forall P buf -> Forall P (sample_from buf k rng j).
Proof.
  induction k as [|k IH]; intros buf j Hb; simpl; [constructor|].
  destruct (buf !! _) as [t|] eqn:Ht; [|constructor].
  constructor.
  - eapply Forall_lookup_1; eassumption.
  - apply IH, Forall_delete, Hb.
Qed.

Lemma sample_from_nonempty (k : nat) (rng : nat -> nat)
    (buf : list Transition) (j : nat) :
  (0 < k)%nat -> buf <> [] -> sample_from buf k rng j <> [].
Proof.
  intros Hk Hb. destruct k as [|k]; [lia|]. simpl.
  destruct (lookup_lt_is_Some_2 buf (rng j mod length buf)) as [t Ht].
  - apply Nat.mod_upper_bound. destruct buf; [contradiction|simpl; lia].
  - rewrite Ht. discriminate.
Qed.

(** X17. A training step that returns after sampling has sampled processable
    transitions only: one stored action index outside the outputs of its
    network, once sampled, makes the call raise. *)
Theorem optimize_model_needs_processable (a r : HierarchicalDQNAgent)
    (batch_size : Z) (rng : nat -> nat) :
  batch_size <= memory_len (memory a) ->
  optimize_model a batch_size rng = Some r ->
  exists transitions,
    sample (memory a) batch_size rng = Some transitions
    /\ transitions <> []
    /\ Forall (processable a) transitions.
Proof.
  intros Hge Ho.
  apply optimize_model_Some in Ho
    as [[Hlt _]|(_ & ts & l1 & l2 & Hs & Hc & _)]; [lia|].
  exists ts. split; [exact Hs|].
  apply compute_losses_is_Some. rewrite Hc. eauto.
Qed.

(** X18. A training step returns whenever [1 <= batch_size <= len(memory)] and
    every stored transition is processable. *)
Theorem optimize_model_returns (a : HierarchicalDQNAgent) (batch_size : Z)
    (rng : nat -> nat) :
  1 <= batch_size <= memory_len (memory a) ->
  Forall (processable a) (buffer (memory a)) ->
  is_Some (optimize_model a batch_size rng).
Proof.
  intros [H1 Hle] Hall. unfold optimize_model, sample.
  destruct (Z.ltb_spec (memory_len (memory a)) batch_size); [lia|].
  destruct (Z.ltb_spec batch_size 0); [lia|]. cbn.
  destruct (compute_losses_is_Some a
              (sample_from (buffer (memory a)) (Z.to_nat batch_size) rng 0))
    as [_ [[l1 l2] Hc]].
  - split.
    + apply sample_from_nonempty; [lia|].
      unfold memory_len in Hle. destruct (buffer (memory a)); [simpl in Hle; lia|].
      discriminate.
    + apply sample_from_Forall, Hall.
  - rewrite Hc. cbn. eauto.
Qed.

(** ** Invariants of an agent in use *)

Lemma do_call_keeps (a : HierarchicalDQNAgent) (c : Call) :
  let r := do_call a c in
  gamma r = gamma a /\ epsilon_end r = epsilon_end a
  /\ epsilon_decay r = epsilon_decay a
  /\ steps_done r = steps_done a + (if is_select_action c then 1 else 0)
  /\ training (policy_net_level_1 r) = training (policy_net_level_1 a)
  /\ training (policy_net_level_2 r) = training (policy_net_level_2 a)
  /\ training (target_net_level_1 r) = training (target_net_level_1 a)
  /\ training (target_net_level_2 r) = training (target_net_level_2 a).
Proof.
  destruct c as [state d|t|batch_size rng|]; simpl.
  - unfold select_action. simpl.
    destruct (Req_dec_T (epsilon_decay a) 0); [simpl; repeat split|].
    destruct (Rgt_dec _ _); simpl; repeat split.
  - rewrite Z.add_0_r. repeat split.
  - rewrite Z.add_0_r.
    destruct (optimize_model a batch_size rng) as [r|] eqn:Ho;
      [|repeat split].
    apply optimize_model_keeps in Ho
      as (T1 & T2 & _ & G & _ & E1 & E2 & S & P1 & P2).
    rewrite T1, T2. repeat split; assumption.
  - rewrite Z.add_0_r. repeat split.
Qed.

Lemma do_calls_keeps (calls : list Call) (a : HierarchicalDQNAgent) :
  let r := do_calls a calls in
  gamma r = gamma a /\ epsilon_end r = epsilon_end a
  /\ epsilon_decay r = epsilon_decay a
  /\ steps_done r
     = steps_done a
       + Z.of_nat (length (List.filter is_select_action calls))
  /\ training (policy_net_level_1 r) = training (policy_net_level_1 a)
  /\ training (policy_net_level_2 r) = training (policy_net_level_2 a)
  /\ training (target_net_level_1 r) = training (target_net_level_1 a)
  /\ training (target_net_level_2 r) = training (target_net_level_2 a).
Proof.
  revert a. induction calls as [|c calls IH]; intros a.
  - simpl. rewrite Z.add_0_r. repeat split.
  - cbv zeta. unfold do_calls. simpl fold_left. fold (do_calls (do_call a c) calls).
    destruct (IH (do_call a c)) as (G & E1 & E2 & S & P1 & P2 & T1 & T2).
    destruct (do_call_keeps a c) as (G' & E1' & E2' & S' & P1' & P2' & T1' & T2').
    rewrite G, E1, E2, S, P1, P2, T1, T2, G', E1', E2', S', P1', P2', T1', T2'.
    repeat split. simpl List.filter.
    destruct (is_select_action c); simpl length; lia.
Qed.

(** X19. Whatever calls a training loop makes on a freshly constructed agent
    ([select_action], [memory.push], [optimize_model], [update_target_net],
    in any order and number, failing or not), the discount and the floor and
    decay of the schedule keep their constructor values, [steps_done] is the
    number of [select_action] calls made, the policy networks stay in
    training mode and the target networks in evaluation mode. *)
Theorem agent_invariants (input_shape : InputShape)
    (num_actions_level_1 num_actions_level_2 : Z)
    (lr gamma0 epsilon_start epsilon_end0 epsilon_decay0 : R)
    (seed1 seed2 seed3 seed4 : nat) (calls : list Call) :
  let r := do_calls
             (init input_shape num_actions_level_1 num_actions_level_2
                lr gamma0 epsilon_start epsilon_end0 epsilon_decay0
                seed1 seed2 seed3 seed4) calls in
  gamma r = gamma0 /\ epsilon_end r = epsilon_end0
  /\ epsilon_decay r = epsilon_decay0
  /\ steps_done r = Z.of_nat (length (List.filter is_select_action calls))
  /\ training (policy_net_level_1 r) = true
  /\ training (policy_net_level_2 r) = true
  /\ training (target_net_level_1 r) = false
  /\ training (target_net_level_2 r) = false.
Proof.
  cbv zeta.
  destruct (do_calls_keeps calls
              (init input_shape num_actions_level_1 num_actions_level_2
                 lr gamma0 epsilon_start epsilon_end0 epsilon_decay0
                 seed1 seed2 seed3 seed4))
    as (G & E1 & E2 & S & P1 & P2 & T1 & T2).
  rewrite G, E1, E2, S, P1, P2, T1, T2. repeat split.
Qed.

Lemma do_call_memory (a : HierarchicalDQNAgent) (c : Call) :
  is_push c = false -> memory (do_call a c) = memory a.
Proof.
  destruct c as [state d|t|batch_size rng|]; simpl; intros Hp.
  - unfold select_action. simpl.
    destruct (Req_dec_T (epsilon_decay a) 0); [reflexivity|].
    destruct (Rgt_dec _ _); reflexivity.
  - discriminate.
  - destruct (optimize_model a batch_size rng) as [r|] eqn:Ho; [|reflexivity].
    apply optimize_model_keeps in Ho as (_ & _ & M & _). exact M.
  - reflexivity.
Qed.

(** X20. Nothing but [memory.push] fills the replay memory: as long as the loop
    has pushed no transition onto a freshly constructed agent, its memory is
    empty and every [optimize_model] call with a positive [batch_size] is a
    no-op, whatever else was called before. *)
Theorem no_training_before_push (input_shape : InputShape)
    (num_actions_level_1 num_actions_level_2 : Z)
    (lr gamma0 epsilon_start epsilon_end0 epsilon_decay0 : R)
    (seed1 seed2 seed3 seed4 : nat) (calls : list Call)
    (batch_size : Z) (rng : nat -> nat) :
  forallb (fun c => negb (is_push c)) calls = true ->
  1 <= batch_size ->
  let r := do_calls
             (init input_shape num_actions_level_1 num_actions_level_2
                lr gamma0 epsilon_start epsilon_end0 epsilon_decay0
                seed1 seed2 seed3 seed4) calls in
  buffer (memory r) = [] /\ optimize_model r batch_size rng = Some r.
Proof.
  intros Hp Hb r.
  assert (Hm : memory r = ReplayMemory_new 10000).
  { subst r.
    change (ReplayMemory_new 10000)
      with (memory (init input_shape num_actions_level_1 num_actions_level_2
                      lr gamma0 epsilon_start epsilon_end0 epsilon_decay0
                      seed1 seed2 seed3 seed4)).
    generalize (init input_shape num_actions_level_1 num_actions_level_2
                  lr gamma0 epsilon_start epsilon_end0 epsilon_decay0
                  seed1 seed2 seed3 seed4).
    induction calls as [|c calls IH]; intros a; [reflexivity|].
    simpl in Hp. apply andb_true_iff in Hp as [Hc Hp].
    unfold do_calls. simpl fold_left. fold (do_calls (do_call a c) calls).
    rewrite (IH Hp). apply do_call_memory.
    destruct (is_push c); [discriminate|reflexivity]. }
  split; [rewrite Hm; reflexivity|].
  unfold optimize_model, memory_len. rewrite Hm. simpl.
  destruct (Z.ltb_spec (Z.of_nat 0) batch_size); [reflexivity|lia].
Qed.

End MoreAgentProps.

(* ===================================================================== *)
(** * Part VIII: the further properties at concrete agents                *)
(* ===================================================================== *)

Lemma greedy_agent_exploits :
  (random_random exploit_draws
   > epsilon (select_action greedy_agent tt exploit_draws).1)%R.
Proof.
  destruct (select_action_state (H := const_torch) greedy_agent tt
              exploit_draws) as (_ & He & _); [simpl; lra|].
  rewrite He. simpl. lra.
Qed.

Lemma four_color_agent_exploits :
  (random_random exploit_draws
   > epsilon (select_action four_color_agent tt exploit_draws).1)%R.
Proof.
  destruct (select_action_state (H := const_torch) four_color_agent tt
              exploit_draws) as (_ & He & _); [simpl; lra|].
  rewrite He. simpl. lra.
Qed.

Lemma select_action_greedy_witness :
  epsilon_decay greedy_agent <> 0%R
  /\ (random_random exploit_draws
      > epsilon (select_action greedy_agent tt exploit_draws).1)%R
  /\ (select_action greedy_agent tt exploit_draws).2 = Some (0, "y"%string)
  /\ exists q,
       call (policy_net_level_1 greedy_agent) tt !! Z.to_nat 0 = Some q
       /\ Forall (fun x => x <= q)%R (call (policy_net_level_1 greedy_agent) tt).
Proof.
  assert (Hd : epsilon_decay greedy_agent <> 0%R) by (simpl; lra).
  pose proof greedy_agent_exploits as Hu.
  assert (Ha : (select_action greedy_agent tt exploit_draws).2
               = Some (0, "y"%string)).
  { rewrite (select_action_exploits (H := const_torch) _ _ _ Hd Hu).
    unfold exploit, argmax, call. simpl.
    repeat (destruct (Rlt_dec _ _); [lra|]). reflexivity. }
  split; [exact Hd|split; [exact Hu|split; [exact Ha|]]].
  apply (select_action_greedy (H := const_torch) greedy_agent tt
           exploit_draws 0 "y" Hd Hu Ha).
Defined.


Lemma select_action_key_error_witness :
  epsilon_decay four_color_agent <> 0%R
  /\ (random_random exploit_draws
      > epsilon (select_action four_color_agent tt exploit_draws).1)%R
  /\ argmax (call (policy_net_level_2 four_color_agent) tt) = Some 3
  /\ 3 <= 3
  /\ (select_action four_color_agent tt exploit_draws).2 = None.
Proof.
  assert (Hd : epsilon_decay four_color_agent <> 0%R) by (simpl; lra).
  pose proof four_color_agent_exploits as Hu.
  assert (Hc : argmax (call (policy_net_level_2 four_color_agent) tt) = Some 3).
  { unfold argmax, call. simpl.
    repeat (destruct (Rlt_dec _ _); try lra). reflexivity. }
  assert (H3 : 3 <= 3) by lia.
  split; [exact Hd|split; [exact Hu|split; [exact Hc|split; [exact H3|]]]].
  apply (select_action_key_error (H := const_torch) four_color_agent tt
           exploit_draws 3 Hd Hu Hc H3).
Defined.

Lemma select_action_reads_policy_only_witness :
  memory (remember default_agent terminal_transition) <> memory default_agent
  /\ (select_action (remember default_agent terminal_transition) tt
        explore_draws).2
     = (select_action default_agent tt explore_draws).2.
Proof.
  split; [discriminate|].
  apply (select_action_reads_policy_only (H := const_torch)
           (remember default_agent terminal_transition) default_agent tt
           explore_draws eq_refl eq_refl eq_refl eq_refl eq_refl eq_refl).
Defined.

Lemma optimize_model_frame_witness :
  let a := remember default_agent terminal_transition in
  exists r,
    optimize_model a 1 (fun _ => O) = Some r
    /\ target_net_level_1 r = target_net_level_1 a
    /\ memory r = memory a.
Proof.
  cbv zeta. eexists. split; [reflexivity|].
  match goal with
  | |- target_net_level_1 ?r = _ /\ _ =>
      pose proof (optimize_model_frame (H := const_torch)
                    (remember default_agent terminal_transition) r 1
                    (fun _ => O) eq_refl) as Hf
  end.
  split; [exact (proj1 Hf)|exact (proj1 (proj2 (proj2 Hf)))].
Defined.

Lemma target_is_snapshot_witness :
  let a := remember default_agent terminal_transition in
  exists r,
    optimize_model (update_target_net a) 1 (fun _ => O) = Some r
    /\ weights (target_net_level_1 r) = weights (policy_net_level_1 a).
Proof.
  cbv zeta. eexists. split; [reflexivity|].
  match goal with
  | |- weights (target_net_level_1 ?r) = _ =>
      exact (proj1 (target_is_snapshot (H := const_torch)
                      (remember default_agent terminal_transition) r 1
                      (fun _ => O) eq_refl))
  end.
Defined.

Lemma optimize_model_needs_processable_witness :
  let a := remember default_agent terminal_transition in
  1 <= memory_len (memory a)
  /\ exists r,
       optimize_model a 1 (fun _ => O) = Some r
       /\ exists transitions,
            sample (memory a) 1 (fun _ => O) = Some transitions
            /\ transitions <> []
            /\ Forall (processable a) transitions.
Proof.
  cbv zeta.
  assert (Hlen : 1 <= memory_len (remember default_agent terminal_transition).(memory))
    by (vm_compute; discriminate).
  split; [exact Hlen|].
  eexists. split; [reflexivity|].
  match goal with
  | |- exists transitions, _ =>
      eapply (optimize_model_needs_processable (H := const_torch)
                (remember default_agent terminal_transition) _ 1
                (fun _ => O) Hlen)
  end.
  reflexivity.
Defined.

Lemma optimize_model_returns_witness :
  let a := remember default_agent terminal_transition in
  1 <= 1 <= memory_len (memory a)
  /\ Forall (processable a) (buffer (memory a))
  /\ is_Some (optimize_model a 1 (fun _ => O)).
Proof.
  cbv zeta.
  assert (Hlen : 1 <= 1
                 <= memory_len (remember default_agent terminal_transition).(memory))
    by (vm_compute; split; discriminate).
  assert (Hall : Forall (processable (remember default_agent terminal_transition))
                   (buffer (memory (remember default_agent terminal_transition)))).
  { repeat constructor; simpl; try lia; discriminate. }
  split; [exact Hlen|split; [exact Hall|]].
  apply (optimize_model_returns (H := const_torch)
           (remember default_agent terminal_transition) 1 (fun _ => O)
           Hlen Hall).
Defined.

Lemma no_training_before_push_witness :
  let calls := [CallSelectAction (H := const_torch) tt explore_draws;
                CallUpdateTargetNet;
                CallOptimizeModel 32 (fun _ => O)] in
  forallb (fun c => negb (is_push c)) calls = true /\ 1 <= 32
  /\ optimize_model (do_calls default_agent calls) 32 (fun _ => O)
     = Some (do_calls default_agent calls).
Proof.
  cbv zeta. split; [reflexivity|split; [lia|]].
  apply (no_training_before_push (H := const_torch) tt 9 3 (1 / 10000)
           (99 / 100) 1 (1 / 10) 5000 1 2 3 4
           [CallSelectAction (H := const_torch) tt explore_draws;
            CallUpdateTargetNet;
            CallOptimizeModel 32 (fun _ => O)] 32 (fun _ => O) eq_refl).
  lia.
Defined.

(* ===================================================================== *)
(** * Part IX: the Bellman target and the schedule in floating point      *)
(* ===================================================================== *)

(** ** Facts of the floating-point operations *)

Lemma SFmul_comm (p e : Z) (x y : spec_float) : SFmul p e x y = SFmul p e y x.
Proof.
  destruct x as [sx|sx| |sx mx ex], y as [sy|sy| |sy my ey]; simpl;
    rewrite ?(xorb_comm sx sy); try reflexivity.
  rewrite (Pos.mul_comm mx my), (Z.add_comm ex ey). reflexivity.
Qed.

Lemma SFadd_comm (p e : Z) (x y : spec_float) : SFadd p e x y = SFadd p e y x.
Proof.
  destruct x as [sx|sx| |sx mx ex], y as [sy|sy| |sy my ey]; simpl;
    try reflexivity; try (destruct sx, sy; reflexivity).
  rewrite (Z.min_comm ex ey), Z.add_comm. reflexivity.
Qed.

Lemma SFltb_irrefl (x : spec_float) : SFltb x x = false.
Proof.
  unfold SFltb. destruct x as [s|s| |s m e]; simpl; try reflexivity.
  - destruct s; reflexivity.
  - rewrite Z.compare_refl. fold (Pos.compare m m). rewrite Pos.compare_refl.
    destruct s; reflexivity.
Qed.

Ltac compare_cases mx my mz ex ey ez :=
  fold (Pos.compare mx my); fold (Pos.compare my mz);
  fold (Pos.compare mx mz);
  destruct (Z.compare_spec ex ey); destruct (Z.compare_spec ey ez);
  destruct (Z.compare_spec ex ez); try lia; try discriminate; auto; simpl;
  destruct (Pos.compare_spec mx my); destruct (Pos.compare_spec my mz);
  destruct (Pos.compare_spec mx mz); simpl; try lia; try discriminate; auto.

Lemma SFltb_trans (x y z : spec_float) :
  SFltb x y = true -> SFltb y z = true -> SFltb x z = true.
Proof.
  unfold SFltb.
  destruct x as [sx|sx| |sx mx ex], y as [sy|sy| |sy my ey],
    z as [sz|sz| |sz mz ez];
    simpl; try discriminate; try (destruct sx; try discriminate);
    try (destruct sy; try discriminate); try (destruct sz; try discriminate);
    try reflexivity; try discriminate.
  all: compare_cases mx my mz ex ey ez.
Qed.

(** Numbers are comparable: what is below [z] is below [y] or has [y] below
    [z], for every [y] that is no NaN. *)
Lemma SFltb_between (x y z : spec_float) :
  F32.is_nan y = false -> SFltb x z = true ->
  SFltb x y = true \/ SFltb y z = true.
Proof.
  unfold SFltb.
  destruct x as [sx|sx| |sx mx ex], y as [sy|sy| |sy my ey],
    z as [sz|sz| |sz mz ez];
    simpl; try discriminate; try (destruct sx; try discriminate);
    try (destruct sy; try discriminate); try (destruct sz; try discriminate);
    auto.
  all: compare_cases mx my mz ex ey ez.
Qed.

(** Equal numbers, the second one finite, are two zeros or one and the same
    finite number. *)
Lemma SFeqb_finite (x y : spec_float) :
  SFeqb x y = true -> F64.is_finite y = true ->
  (exists sx sy, x = S754_zero sx /\ y = S754_zero sy)
  \/ (exists s m e, x = S754_finite s m e /\ y = x).
Proof.
  unfold SFeqb.
  destruct x as [sx|sx| |sx mx ex], y as [sy|sy| |sy my ey]; simpl;
    try discriminate; try (destruct sx; discriminate);
    try (destruct sy; discriminate); try (destruct sx, sy; discriminate).
  - intros _ _. left. eauto.
  - intros Hc _. right. exists sx, mx, ex. split; [reflexivity|].
    fold (Pos.compare mx my) in Hc.
    destruct sx, sy; try discriminate;
      destruct (Z.compare_spec ex ey); try discriminate;
      destruct (Pos.compare_spec mx my); try discriminate; subst; reflexivity.
Qed.

(** ** Rounding to a binary format *)

Lemma digits2_pos_size (m : positive) : digits2_pos m = Pos.size m.
Proof. induction m as [m IH|m IH|]; simpl; congruence. Qed.

Lemma Zdigits2_log2 (z : Z) : 0 < z -> Zdigits2 z = Z.log2 z + 1.
Proof.
  destruct z as [|p|p]; try lia. intros _. simpl. rewrite digits2_pos_size.
  destruct p; simpl; lia.
Qed.

Lemma Zdigits2_bounds (z : Z) :
  0 < z -> 2 ^ (Zdigits2 z - 1) <= z < 2 ^ Zdigits2 z.
Proof.
  intros Hz. rewrite (Zdigits2_log2 z Hz).
  replace (Z.log2 z + 1 - 1) with (Z.log2 z) by lia.
  apply Z.log2_spec, Hz.
Qed.

Lemma Zdigits2_pos (z : Z) : 0 < z -> 0 < Zdigits2 z.
Proof.
  intros Hz. rewrite (Zdigits2_log2 z Hz). pose proof (Z.log2_nonneg z). lia.
Qed.

Lemma Zdigits2_nonneg (z : Z) : 0 <= z -> 0 <= Zdigits2 z.
Proof.
  intros Hz. destruct (Z.eq_dec z 0) as [->|]; [simpl; lia|].
  pose proof (Zdigits2_pos z). lia.
Qed.

Lemma Zdigits2_le (a b : Z) : 0 < a -> a <= b -> Zdigits2 a <= Zdigits2 b.
Proof.
  intros Ha Hab. rewrite !Zdigits2_log2 by lia.
  pose proof (Z.log2_le_mono a b Hab). lia.
Qed.

Lemma Zdigits2_mul_pow2 (a n : Z) :
  0 < a -> 0 <= n -> Zdigits2 (a * 2 ^ n) = Zdigits2 a + n.
Proof.
  intros Ha Hn. assert (0 < 2 ^ n) by (apply Z.pow_pos_nonneg; lia).
  rewrite !Zdigits2_log2 by nia. rewrite Z.log2_mul_pow2 by lia. lia.
Qed.

Lemma Zdigits2_div_pow2 (a n : Z) :
  0 <= n -> 0 < a / 2 ^ n -> Zdigits2 (a / 2 ^ n) = Zdigits2 a - n.
Proof.
  intros Hn Hq. assert (H2 : 0 < 2 ^ n) by (apply Z.pow_pos_nonneg; lia).
  assert (Ha : 0 < a).
  { destruct (Z.le_gt_cases a 0) as [Hle|]; [|assumption].
    pose proof (Z.div_le_upper_bound a (2 ^ n) 0 H2). lia. }
  rewrite !Zdigits2_log2 by lia.
  rewrite <- Z.shiftr_div_pow2 in * by lia.
  rewrite Z.log2_shiftr by lia.
  destruct (Z.le_gt_cases n (Z.log2 a)) as [Hle|Hlt]; [lia|].
  rewrite Z.shiftr_eq_0 in Hq by lia. lia.
Qed.

Lemma Zdigits2_succ (a : Z) : 0 <= a -> Zdigits2 (a + 1) <= Zdigits2 a + 1.
Proof.
  intros Ha. destruct (Z.eq_dec a 0) as [->|Hne]; [simpl; lia|].
  pose proof (Zdigits2_bounds a ltac:(lia)) as [_ Hb].
  pose proof (Zdigits2_pos a ltac:(lia)).
  rewrite (Zdigits2_log2 (a + 1)) by lia.
  destruct (Z.eq_dec (a + 1) (2 ^ Zdigits2 a)) as [->|Hneq].
  - rewrite Z.log2_pow2 by lia. lia.
  - assert (Hlt : a + 1 < 2 ^ Zdigits2 a) by lia.
    apply Z.log2_lt_pow2 in Hlt; lia.
Qed.

Lemma Zpos_iter_xO (m d : positive) :
  Zpos (Pos.iter xO m d) = Zpos m * 2 ^ Zpos d.
Proof.
  revert m. induction d as [|d IH] using Pos.peano_ind; intros m.
  - simpl. lia.
  - rewrite Pos.iter_succ, Pos2Z.inj_xO, IH, Pos2Z.inj_succ, Z.pow_succ_r; lia.
Qed.

Section Format.
Variables prec emax : Z.
Hypothesis Hprec : 0 < prec.
Hypothesis Hemax : prec < emax.

Local Notation "'fexp'" := (SpecFloat.fexp prec emax).
Local Notation "'emin'" := (SpecFloat.emin prec emax).

Lemma fexp_ge_emin (x : Z) : emin <= fexp x.
Proof. unfold SpecFloat.fexp. lia. Qed.

Lemma fexp_le (x y : Z) : x <= y -> fexp x <= fexp y.
Proof. unfold SpecFloat.fexp. lia. Qed.

Lemma fexp_succ (x : Z) : fexp (x + 1) <= fexp x + 1.
Proof. unfold SpecFloat.fexp. lia. Qed.

Lemma fexp_above_emin (x : Z) : emin < fexp x -> fexp x = x - prec.
Proof. unfold SpecFloat.fexp. lia. Qed.

Lemma emin_nonpos : emin <= 0.
Proof. unfold SpecFloat.emin. lia. Qed.

(** A canonical mantissa has at most [prec] digits, and exactly [prec] above
    the least exponent. *)
Lemma canonical_digits (m : positive) (e : Z) :
  canonical_mantissa prec emax m e = true ->
  emin <= e /\ Zdigits2 (Zpos m) <= prec
  /\ (emin < e -> Zdigits2 (Zpos m) = prec)
  /\ (Zdigits2 (Zpos m) < prec -> e = emin).
Proof.
  unfold canonical_mantissa. intros Hc. apply Z.eqb_eq in Hc.
  simpl Zdigits2. unfold SpecFloat.fexp in Hc. lia.
Qed.

Lemma shr_1_m (mrs : shr_record) :
  0 <= shr_m mrs -> shr_m (shr_1 mrs) = shr_m mrs / 2.
Proof.
  destruct mrs as [m r s]. simpl. intros Hm. rewrite <- Z.div2_div.
  destruct m as [|[p|p|]|p]; try lia; reflexivity.
Qed.

Lemma iter_shr_1_m (n : positive) (mrs : shr_record) :
  0 <= shr_m mrs ->
  shr_m (SpecFloat.iter_pos shr_1 n mrs) = shr_m mrs / 2 ^ Zpos n.
Proof.
  assert (Hpow : forall k : positive, 0 < 2 ^ Zpos k)
    by (intros k; apply Z.pow_pos_nonneg; lia).
  revert mrs. induction n as [n IH|n IH|]; intros mrs Hm;
    simpl SpecFloat.iter_pos.
  - assert (H1 : 0 <= shr_m (shr_1 mrs))
      by (rewrite shr_1_m by lia; apply Z.div_pos; lia).
    assert (H2 : 0 <= shr_m (SpecFloat.iter_pos shr_1 n (shr_1 mrs)))
      by (rewrite IH by lia; apply Z.div_pos; [lia|apply Hpow]).
    assert (Hn : 2 ^ Zpos n~1 = 2 * 2 ^ Zpos n * 2 ^ Zpos n).
    { replace (Zpos n~1) with (1 + Zpos n + Zpos n) by lia.
      rewrite !Z.pow_add_r by lia. reflexivity. }
    rewrite IH, IH, shr_1_m by assumption.
    pose proof (Hpow n).
    rewrite !Z.div_div by lia. rewrite Hn. f_equal. lia.
  - assert (H2 : 0 <= shr_m (SpecFloat.iter_pos shr_1 n mrs))
      by (rewrite IH by lia; apply Z.div_pos; [lia|apply Hpow]).
    assert (Hn : 2 ^ Zpos n~0 = 2 ^ Zpos n * 2 ^ Zpos n).
    { replace (Zpos n~0) with (Zpos n + Zpos n) by lia.
      rewrite !Z.pow_add_r by lia. reflexivity. }
    rewrite IH, IH by assumption.
    pose proof (Hpow n).
    rewrite !Z.div_div by lia. rewrite Hn. reflexivity.
  - rewrite shr_1_m by assumption. reflexivity.
Qed.

(** A shift by [n]: the mantissa is divided by [2 ^ n], and the location is
    exact when nothing is shifted. *)
Lemma shr_spec (m e n : Z) :
  0 <= m ->
  shr_m (shr (Build_shr_record m false false) e n).1 = m / 2 ^ Z.max 0 n
  /\ (shr (Build_shr_record m false false) e n).2 = e + Z.max 0 n
  /\ (n <= 0 ->
      (shr (Build_shr_record m false false) e n).1
      = Build_shr_record m false false).
Proof.
  intros Hm. destruct n as [|p|p]; simpl.
  - rewrite Z.div_1_r. split; [reflexivity|split; [lia|reflexivity]].
  - rewrite iter_shr_1_m by exact Hm. simpl shr_m.
    split; [reflexivity|split; [reflexivity|lia]].
  - rewrite Z.div_1_r. split; [reflexivity|split; [lia|reflexivity]].
Qed.

Lemma round_nearest_even_bounds (m : Z) (l : location) :
  round_nearest_even m l = m \/ round_nearest_even m l = m + 1.
Proof.
  destruct l as [|[]]; simpl; try (left; reflexivity);
    try (right; reflexivity).
  destruct (Z.even m); [left|right]; reflexivity.
Qed.


Lemma Zdigits2_le0 (a b : Z) : 0 <= a -> a <= b -> Zdigits2 a <= Zdigits2 b.
Proof.
  intros Ha Hab. destruct (Z.eq_dec a 0) as [->|Hne].
  - simpl. apply Zdigits2_nonneg. lia.
  - apply Zdigits2_le; lia.
Qed.

Lemma Zdigits2_pow2 (n : Z) : 0 <= n -> Zdigits2 (2 ^ n) = n + 1.
Proof.
  intros Hn. rewrite Zdigits2_log2 by (apply Z.pow_pos_nonneg; lia).
  rewrite Z.log2_pow2 by lia. reflexivity.
Qed.

Local Notation "'pack' s m e" :=
  (match m with
   | Z0 => S754_zero s
   | Zpos p =>
       if Z.leb e (Z.sub emax prec) then S754_finite s p e
       else S754_infinity s
   | Zneg _ => S754_nan
   end) (at level 10, s at level 9, m at level 9, e at level 9).

(** Rounding a positive mantissa that is at least as fine as the format
    wants it: the result has the mantissa [m_r] and the exponent [e_r], where
    [m_r] is the quotient [m'] of the mantissa at the exponent [e1] of the
    format, or one more; one more can overflow to the next exponent. The
    result is canonical. *)
Lemma binary_round_aux_spec (s : bool) (M e : Z) :
  0 < M -> e <= fexp (Zdigits2 M + e) ->
  let e1 := fexp (Zdigits2 M + e) in
  let m' := M / 2 ^ (e1 - e) in
  exists m_r e_r,
    binary_round_aux prec emax s M e loc_Exact = pack s m_r e_r
    /\ 0 <= m_r
    /\ (0 < m_r -> fexp (Zdigits2 m_r + e_r) = e_r)
    /\ ((m_r = m' /\ e_r = e1)
        \/ (m_r = m' + 1 /\ e_r = e1 /\ e < e1)
        \/ (m_r = 2 ^ (prec - 1) /\ e_r = e1 + 1 /\ m' + 1 = 2 ^ prec
            /\ e < e1)).
Proof.
  intros HM He e1 m'.
  assert (Hk : 0 < 2 ^ (e1 - e)) by (apply Z.pow_pos_nonneg; lia).
  assert (Hm' : 0 <= m') by (apply Z.div_pos; lia).
  assert (Hcan : fexp (Zdigits2 m' + e1) = e1).
  { destruct (Z.eq_dec m' 0) as [H0|H0].
    - rewrite H0. simpl Zdigits2.
      apply Z.div_small_iff in H0 as [H0|H0]; [|lia|lia].
      pose proof (Zdigits2_bounds M HM) as [Hlo _].
      assert (Hd : Zdigits2 M - 1 < e1 - e).
      { apply (Z.pow_lt_mono_r_iff 2); lia. }
      subst e1. unfold SpecFloat.fexp in *. lia.
    - unfold m'. rewrite Zdigits2_div_pow2 by (fold m'; lia).
      replace (Zdigits2 M - (e1 - e) + e1) with (Zdigits2 M + e) by lia.
      reflexivity. }
  unfold binary_round_aux, shr_fexp. fold e1. simpl shr_record_of_loc.
  destruct (shr_spec M e (e1 - e) ltac:(lia)) as (Hm1 & He1 & Hex1).
  destruct (shr {| shr_m := M; shr_r := false; shr_s := false |} e (e1 - e))
    as [mrs1 e'] eqn:E1.
  simpl in Hm1, He1, Hex1.
  rewrite Z.max_r in Hm1, He1 by lia. fold m' in Hm1.
  assert (e' = e1) as -> by lia.
  set (m'' := round_nearest_even (shr_m mrs1) (loc_of_shr_record mrs1)).
  assert (Hm'' : m'' = m' \/ (m'' = m' + 1 /\ e < e1)).
  { destruct (Z.eq_dec e1 e) as [Heq|Hne].
    - left. unfold m''. rewrite Hex1 by lia. simpl. rewrite <- Hm1.
      rewrite Hex1 by lia. reflexivity.
    - unfold m''. rewrite Hm1.
      destruct (round_nearest_even_bounds m' (loc_of_shr_record mrs1))
        as [->| ->]; [left; reflexivity|right; split; [reflexivity|lia]]. }
  assert (H0'' : 0 <= m'') by lia.
  destruct (shr_spec m'' e1 (fexp (Zdigits2 m'' + e1) - e1) H0'')
    as (Hm2 & He2 & Hex2).
  destruct (shr {| shr_m := m''; shr_r := false; shr_s := false |} e1
              (fexp (Zdigits2 m'' + e1) - e1)) as [mrs2 e''] eqn:E2.
  simpl in Hm2, He2, Hex2.
  exists (shr_m mrs2), e''. split; [reflexivity|].
  destruct Hm'' as [Heq|[Heq Hlt]].
  - rewrite Heq, Hcan, Z.sub_diag in *. simpl in Hm2, He2.
    rewrite Z.div_1_r in Hm2. rewrite Hm2.
    assert (e'' = e1) as -> by lia.
    split; [exact Hm'|split; [intros _; exact Hcan|left; split; reflexivity]].
  - pose proof (Zdigits2_succ m' Hm') as Hs.
    pose proof (Zdigits2_le0 m' (m' + 1) Hm' ltac:(lia)) as Hl.
    rewrite <- Heq in Hs, Hl.
    pose proof (fexp_le (Zdigits2 m' + e1) (Zdigits2 m'' + e1) ltac:(lia)).
    pose proof (fexp_succ (Zdigits2 m' + e1)).
    pose proof (fexp_le (Zdigits2 m'' + e1) (Zdigits2 m' + e1 + 1)
                  ltac:(lia)).
    destruct (Z.eq_dec (fexp (Zdigits2 m'' + e1)) e1) as [Hn2|Hn2].
    + rewrite Hn2, Z.sub_diag in *. simpl in Hm2, He2.
      rewrite Z.div_1_r in Hm2. rewrite Hm2.
      assert (e'' = e1) as -> by lia.
      split; [lia|split; [intros _; exact Hn2|]].
      right; left. split; [exact Heq|split; [reflexivity|exact Hlt]].
    + assert (Hn2' : fexp (Zdigits2 m'' + e1) = e1 + 1) by lia.
      rewrite Hn2' in *.
      replace (e1 + 1 - e1) with 1 in * by lia. simpl in Hm2, He2.
      assert (e'' = e1 + 1) as -> by lia.
      pose proof (fexp_ge_emin (Zdigits2 M + e)) as Hemin. fold e1 in Hemin.
      assert (Hd'' : Zdigits2 m'' = prec + 1)
        by (unfold SpecFloat.fexp in Hn2'; lia).
      assert (Hd' : Zdigits2 m' <= prec)
        by (unfold SpecFloat.fexp in Hcan; lia).
      assert (Hp : 2 ^ prec = 2 * 2 ^ (prec - 1)).
      { rewrite <- Z.pow_succ_r by lia. f_equal. lia. }
      assert (Hpp : 0 < 2 ^ (prec - 1)) by (apply Z.pow_pos_nonneg; lia).
      assert (Hup : m' < 2 ^ prec).
      { destruct (Z.eq_dec m' 0) as [->|]; [lia|].
        pose proof (Zdigits2_bounds m' ltac:(lia)) as [_ Hb].
        eapply Z.lt_le_trans; [exact Hb|].
        apply Z.pow_le_mono_r; lia. }
      pose proof (Zdigits2_bounds m'' ltac:(lia)) as [Hb _].
      rewrite Hd'' in Hb. replace (prec + 1 - 1) with prec in Hb by lia.
      assert (Hmm : m'' = 2 ^ prec) by lia.
      assert (Hr : shr_m mrs2 = 2 ^ (prec - 1)).
      { rewrite Hm2, Hmm, Hp. change (2 ^ 1) with 2.
        rewrite Z.mul_comm, Z.div_mul by lia. reflexivity. }
      rewrite Hr. split; [lia|split].
      * intros _. rewrite Zdigits2_pow2 by lia.
        unfold SpecFloat.fexp in *. lia.
      * right; right. repeat split; lia.
Qed.


Lemma binary_round_spec (s : bool) (M : positive) (e : Z) :
  let e1 := fexp (Zdigits2 (Zpos M) + e) in
  let m' := Zpos M / 2 ^ (e1 - e) in
  exists m_r e_r,
    binary_round prec emax s M e = pack s m_r e_r
    /\ 0 <= m_r
    /\ (0 < m_r -> fexp (Zdigits2 m_r + e_r) = e_r)
    /\ ((e1 <= e /\ m_r = Zpos M * 2 ^ (e - e1) /\ e_r = e1)
        \/ (e < e1
            /\ ((m_r = m' /\ e_r = e1)
                \/ (m_r = m' + 1 /\ e_r = e1)
                \/ (m_r = 2 ^ (prec - 1) /\ e_r = e1 + 1
                    /\ m' + 1 = 2 ^ prec)))).
Proof.
  intros e1 m'. unfold binary_round, shl_align.
  change (Zpos (digits2_pos M)) with (Zdigits2 (Zpos M)). fold e1.
  destruct (e1 - e) as [|d|d] eqn:Hd.
  - destruct (binary_round_aux_spec s (Zpos M) e ltac:(lia) ltac:(fold e1; lia))
      as (m_r & e_r & Hr & H0 & Hc & Ho).
    fold e1 in Ho. exists m_r, e_r.
    split; [exact Hr|split; [exact H0|split; [exact Hc|]]].
    left. replace (e1 - e) with 0 in Ho by lia.
    replace (e - e1) with 0 by lia.
    change (2 ^ 0) with 1 in *. rewrite Z.div_1_r in Ho. lia.
  - destruct (binary_round_aux_spec s (Zpos M) e ltac:(lia) ltac:(fold e1; lia))
      as (m_r & e_r & Hr & H0 & Hc & Ho).
    fold e1 in Ho. rewrite Hd in Ho. exists m_r, e_r.
    split; [exact Hr|split; [exact H0|split; [exact Hc|]]].
    right. split; [lia|]. unfold m'. rewrite ?Hd.
    destruct Ho as [Ho|[Ho|Ho]]; [left|right; left|right; right]; tauto.
  - assert (HM : Zpos (Pos.iter xO M d) = Zpos M * 2 ^ (e - e1)).
    { rewrite Zpos_iter_xO. f_equal. f_equal. lia. }
    assert (He1 : fexp (Zdigits2 (Zpos (Pos.iter xO M d)) + e1) = e1).
    { rewrite HM, Zdigits2_mul_pow2 by lia.
      replace (Zdigits2 (Zpos M) + (e - e1) + e1)
        with (Zdigits2 (Zpos M) + e) by lia.
      reflexivity. }
    destruct (binary_round_aux_spec s (Zpos (Pos.iter xO M d)) e1
                ltac:(lia) ltac:(rewrite He1; lia))
      as (m_r & e_r & Hr & H0 & Hc & Ho).
    rewrite He1, Z.sub_diag in Ho. change (2 ^ 0) with 1 in Ho.
    rewrite Z.div_1_r in Ho. exists m_r, e_r.
    split; [exact Hr|split; [exact H0|split; [exact Hc|]]].
    left. lia.
Qed.

Lemma pack_shape (s : bool) (m_r e_r : Z) :
  0 <= m_r -> (0 < m_r -> fexp (Zdigits2 m_r + e_r) = e_r) ->
  valid_binary prec emax (pack s m_r e_r) = true
  /\ match pack s m_r e_r with
     | S754_zero s' | S754_infinity s' | S754_finite s' _ _ => s' = s
     | S754_nan => False
     end.
Proof.
  intros H0 Hc. destruct m_r as [|p|p]; [split; reflexivity| |lia].
  destruct (Z.leb_spec e_r (emax - prec)) as [Hle|Hgt];
    [|split; reflexivity].
  split; [|reflexivity]. simpl. unfold bounded, canonical_mantissa.
  specialize (Hc ltac:(lia)). simpl in Hc. rewrite Hc, Z.eqb_refl.
  apply Z.leb_le in Hle. rewrite Hle. reflexivity.
Qed.

Lemma binary_round_shape (s : bool) (M : positive) (e : Z) :
  valid_binary prec emax (binary_round prec emax s M e) = true
  /\ match binary_round prec emax s M e with
     | S754_zero s' | S754_infinity s' | S754_finite s' _ _ => s' = s
     | S754_nan => False
     end.
Proof.
  destruct (binary_round_spec s M e) as (m_r & e_r & -> & H0 & Hc & _).
  apply pack_shape; assumption.
Qed.

Lemma binary_round_aux_shape (s : bool) (M e : Z) :
  0 < M -> e <= fexp (Zdigits2 M + e) ->
  valid_binary prec emax (binary_round_aux prec emax s M e loc_Exact) = true
  /\ match binary_round_aux prec emax s M e loc_Exact with
     | S754_zero s' | S754_infinity s' | S754_finite s' _ _ => s' = s
     | S754_nan => False
     end.
Proof.
  intros HM He.
  destruct (binary_round_aux_spec s M e HM He) as (m_r & e_r & -> & H0 & Hc & _).
  apply pack_shape; assumption.
Qed.

(** *** Comparisons *)

Lemma SFltb_finite_pos (m1 m2 : positive) (e1 e2 : Z) :
  e2 < e1 \/ (e1 = e2 /\ Zpos m2 <= Zpos m1) ->
  SFltb (S754_finite false m1 e1) (S754_finite false m2 e2) = false.
Proof.
  intros H. unfold SFltb, SFcompare. fold (Pos.compare m1 m2).
  destruct (Z.compare_spec e1 e2); try lia; try reflexivity.
  destruct (Pos.compare_spec m1 m2); try lia; reflexivity.
Qed.

Lemma SFltb_finite_neg (m1 m2 : positive) (e1 e2 : Z) :
  e1 < e2 \/ (e1 = e2 /\ Zpos m1 <= Zpos m2) ->
  SFltb (S754_finite true m1 e1) (S754_finite true m2 e2) = false.
Proof.
  intros H. unfold SFltb, SFcompare. fold (Pos.compare m1 m2).
  destruct (Z.compare_spec e1 e2); try lia; try reflexivity.
  destruct (Pos.compare_spec m1 m2); try lia; reflexivity.
Qed.

Lemma pack_not_below_pos (m_r e_r : Z) (mb : positive) (eb : Z) :
  0 < m_r -> eb < e_r \/ (e_r = eb /\ Zpos mb <= m_r) ->
  SFltb (pack false m_r e_r) (S754_finite false mb eb) = false.
Proof.
  intros H0 H. destruct m_r as [|p|p]; try lia.
  destruct (Z.leb e_r (emax - prec)); [|reflexivity].
  apply SFltb_finite_pos. exact H.
Qed.

Lemma pack_not_below_neg (m_r e_r : Z) (mb : positive) (eb : Z) :
  0 <= m_r -> eb <= emax - prec ->
  e_r < eb \/ (e_r = eb /\ m_r <= Zpos mb) ->
  SFltb (pack true m_r e_r) (S754_finite true mb eb) = false.
Proof.
  intros H0 Hb H. destruct m_r as [|p|p]; try lia; [reflexivity|].
  destruct (Z.leb_spec e_r (emax - prec)); [|lia].
  apply SFltb_finite_neg. exact H.
Qed.

(** Canonical numbers are ordered by their exponents first. *)
Lemma canonical_lt (m1 m2 : positive) (e1 e2 : Z) :
  canonical_mantissa prec emax m1 e1 = true ->
  canonical_mantissa prec emax m2 e2 = true ->
  e2 < e1 -> Zpos m2 < Zpos m1 * 2 ^ (e1 - e2).
Proof.
  intros H1 H2 Hlt.
  destruct (canonical_digits m1 e1 H1) as (_ & _ & Hd1 & _).
  destruct (canonical_digits m2 e2 H2) as (Hemin & Hd2 & _).
  specialize (Hd1 ltac:(lia)).
  pose proof (Zdigits2_bounds (Zpos m1) ltac:(lia)) as [Hlo _].
  pose proof (Zdigits2_bounds (Zpos m2) ltac:(lia)) as [_ Hhi].
  rewrite Hd1 in Hlo.
  assert (Hp : 2 ^ prec = 2 * 2 ^ (prec - 1)).
  { rewrite <- Z.pow_succ_r by lia. f_equal. lia. }
  assert (H2p : 2 ^ Zdigits2 (Zpos m2) <= 2 ^ prec)
    by (apply Z.pow_le_mono_r; lia).
  assert (Hk : 2 ^ 1 <= 2 ^ (e1 - e2)) by (apply Z.pow_le_mono_r; lia).
  change (2 ^ 1) with 2 in Hk. nia.
Qed.

Lemma shl_align_fst (m : positive) (e ez : Z) :
  ez <= e -> Zpos (shl_align m e ez).1 = Zpos m * 2 ^ (e - ez).
Proof.
  intros Hle. unfold shl_align. destruct (ez - e) as [|d|d] eqn:Hd; simpl.
  - replace (e - ez) with 0 by lia. simpl. lia.
  - lia.
  - rewrite Zpos_iter_xO. f_equal. f_equal. lia.
Qed.


Lemma bounded_inv (m : positive) (e : Z) :
  bounded prec emax m e = true ->
  canonical_mantissa prec emax m e = true /\ e <= emax - prec.
Proof.
  unfold bounded. intros H. apply andb_prop in H as [H1 H2].
  apply Z.leb_le in H2. split; assumption.
Qed.

Lemma canonical_fexp (m : positive) (e : Z) :
  canonical_mantissa prec emax m e = true ->
  fexp (Zdigits2 (Zpos m) + e) = e.
Proof. unfold canonical_mantissa. intros H. apply Z.eqb_eq in H. exact H. Qed.

Lemma shape_false_not_below (x : spec_float) (mb : positive) (eb : Z) :
  match x with
  | S754_zero s' | S754_infinity s' | S754_finite s' _ _ => s' = false
  | S754_nan => False
  end ->
  SFltb x (S754_finite true mb eb) = false
  /\ SFltb x (S754_zero false) = false.
Proof. destruct x as [s|s| |s m e]; intros H; try subst s; try tauto; split; reflexivity. Qed.

(** Adding a number that is not negative does not go below: the sum, rounded,
    is not less than the first summand. *)
Lemma SFadd_not_below (b p : spec_float) :
  valid_binary prec emax b = true -> valid_binary prec emax p = true ->
  SFltb p (S754_zero false) = false ->
  valid_binary prec emax (SFadd prec emax b p) = true
  /\ SFltb (SFadd prec emax b p) b = false.
Proof.
  intros Hb Hp Hn.
  destruct p as [sp|sp| |sp mp ep].
  - destruct b as [sb|sb| |sb mb eb].
    + destruct sb, sp; split; reflexivity.
    + split; [reflexivity|destruct sb; reflexivity].
    + split; reflexivity.
    + split; [exact Hb|apply SFltb_irrefl].
  - destruct sp; [discriminate Hn|].
    destruct b as [[]|[]| |[] mb eb]; split; reflexivity.
  - destruct b; split; reflexivity.
  - destruct sp; [discriminate Hn|].
    destruct b as [sb|sb| |sb mb eb];
      [split; [exact Hp|reflexivity]
      |split; [reflexivity|destruct sb; reflexivity]
      |split; reflexivity|].
    clear Hn.
    simpl in Hb, Hp.
    apply bounded_inv in Hb as [Hcb Heb]. apply bounded_inv in Hp as [Hcp Hep].
    pose proof (canonical_fexp mb eb Hcb) as Hfb.
    destruct (canonical_digits mb eb Hcb) as (Hemin & Hdb & Hnorm & _).
    change (SFadd prec emax (S754_finite sb mb eb) (S754_finite false mp ep))
      with (binary_normalize prec emax
              (cond_Zopp sb (Zpos (shl_align mb eb (Z.min eb ep)).1)
               + cond_Zopp false (Zpos (shl_align mp ep (Z.min eb ep)).1))
              (Z.min eb ep) false).
    rewrite !shl_align_fst by lia.
    set (ez := Z.min eb ep). set (B := Zpos mb * 2 ^ (eb - ez)).
    set (P := Zpos mp * 2 ^ (ep - ez)).
    assert (HkB : 0 < 2 ^ (eb - ez)) by (apply Z.pow_pos_nonneg; lia).
    assert (HkP : 0 < 2 ^ (ep - ez)) by (apply Z.pow_pos_nonneg; lia).
    assert (HB : 0 < B) by (unfold B; nia).
    assert (HP : 0 < P) by (unfold P; nia).
    assert (HdB : Zdigits2 B = Zdigits2 (Zpos mb) + (eb - ez))
      by (unfold B; apply Zdigits2_mul_pow2; lia).
    destruct sb; simpl cond_Zopp.
    + (* a negative first summand *)
      destruct (- B + P) as [|q|q] eqn:HM; simpl binary_normalize.
      * split; reflexivity.
      * destruct (binary_round_shape false q ez) as [Hv Hs].
        split; [exact Hv|]. apply shape_false_not_below, Hs.
      * destruct (binary_round_shape true q ez) as [Hv _].
        split; [exact Hv|].
        destruct (binary_round_spec true q ez) as (m_r & e_r & -> & H0 & _ & Ho).
        assert (Hq : Zpos q < B) by lia.
        pose proof (Zdigits2_le (Zpos q) B ltac:(lia) ltac:(lia)) as Hdq.
        pose proof (fexp_le (Zdigits2 (Zpos q) + ez) (Zdigits2 (Zpos mb) + eb)
                      ltac:(lia)) as He1.
        rewrite Hfb in He1.
        set (e1 := fexp (Zdigits2 (Zpos q) + ez)) in *.
        pose proof (fexp_ge_emin (Zdigits2 (Zpos q) + ez)) as He1min.
        fold e1 in He1min.
        apply pack_not_below_neg; [exact H0|exact Heb|].
        destruct Ho as [(Hle & -> & ->)|(Hlt & Ho)].
        { destruct (Z.eq_dec e1 eb) as [Heq|Hne]; [|left; lia].
          right. split; [exact Heq|].
          assert (ez = eb) by lia.
          replace (ez - e1) with 0 by lia. unfold B in Hq.
          replace (eb - ez) with 0 in Hq by lia. simpl in Hq. lia. }
        assert (Hk : 0 < 2 ^ (e1 - ez)) by (apply Z.pow_pos_nonneg; lia).
        assert (Hm' : e1 = eb -> Zpos q / 2 ^ (e1 - ez) < Zpos mb).
        { intros Heq. apply Z.div_lt_upper_bound; [lia|].
          unfold B in Hq. rewrite Heq. lia. }
        destruct Ho as [[-> ->]|[[-> ->]|(-> & -> & Hov)]].
        { destruct (Z.eq_dec e1 eb) as [Heq|Hne]; [|left; lia].
          right. specialize (Hm' Heq). lia. }
        { destruct (Z.eq_dec e1 eb) as [Heq|Hne]; [|left; lia].
          right. specialize (Hm' Heq). lia. }
        pose proof (Zdigits2_bounds (Zpos mb) ltac:(lia)) as [Hlo Hhi].
        assert (H2p : 2 ^ Zdigits2 (Zpos mb) <= 2 ^ prec)
          by (apply Z.pow_le_mono_r; lia).
        destruct (Z.eq_dec e1 eb) as [Heq|Hne].
        { specialize (Hm' Heq). lia. }
        destruct (Z.eq_dec (e1 + 1) eb) as [Heq|Hne']; [|left; lia].
        right. split; [exact Heq|].
        rewrite Hnorm in Hlo by lia. exact Hlo.
    + (* a first summand that is not negative *)
      destruct (B + P) as [|q|q] eqn:HM; try lia. simpl binary_normalize.
      destruct (binary_round_shape false q ez) as [Hv _].
      split; [exact Hv|].
      destruct (binary_round_spec false q ez) as (m_r & e_r & -> & H0 & _ & Ho).
      assert (Hq : B < Zpos q) by lia.
      pose proof (Zdigits2_le B (Zpos q) ltac:(lia) ltac:(lia)) as Hdq.
      pose proof (fexp_le (Zdigits2 (Zpos mb) + eb) (Zdigits2 (Zpos q) + ez)
                    ltac:(lia)) as He1.
      rewrite Hfb in He1.
      pose proof (Zdigits2_bounds (Zpos q) ltac:(lia)) as [Hqlo _].
      assert (Hnz : eb < fexp (Zdigits2 (Zpos q) + ez) ->
                    ez < fexp (Zdigits2 (Zpos q) + ez) ->
                    0 < Zpos q / 2 ^ (fexp (Zdigits2 (Zpos q) + ez) - ez)).
      { intros Hgt Hsh.
        rewrite (fexp_above_emin (Zdigits2 (Zpos q) + ez)) in * by lia.
        apply Z.div_str_pos. split; [apply Z.pow_pos_nonneg; lia|].
        eapply Z.le_trans; [|exact Hqlo]. apply Z.pow_le_mono_r; lia. }
      set (e1 := fexp (Zdigits2 (Zpos q) + ez)) in *.
      destruct Ho as [(Hle & -> & ->)|(Hlt & Ho)].
      { assert (Hk : 0 < 2 ^ (ez - e1)) by (apply Z.pow_pos_nonneg; lia).
        apply pack_not_below_pos; [nia|].
        right. assert (e1 = eb) by lia. split; [assumption|].
        assert (ez = eb) by lia.
        replace (ez - e1) with 0 by lia. unfold B in Hq.
        replace (eb - ez) with 0 in Hq by lia. simpl in Hq. lia. }
      assert (Hk : 0 < 2 ^ (e1 - ez)) by (apply Z.pow_pos_nonneg; lia).
      assert (Hm' : e1 = eb -> Zpos mb <= Zpos q / 2 ^ (e1 - ez)).
      { intros Heq. apply Z.div_le_lower_bound; [lia|].
        unfold B in Hq. rewrite Heq. lia. }
      assert (Hpp : 0 < 2 ^ (prec - 1)) by (apply Z.pow_pos_nonneg; lia).
      destruct Ho as [[-> ->]|[[-> ->]|(-> & -> & Hov)]].
      * destruct (Z.eq_dec e1 eb) as [Heq|Hne].
        -- specialize (Hm' Heq). apply pack_not_below_pos; [lia|right; lia].
        -- apply pack_not_below_pos; [apply Hnz; lia|left; lia].
      * assert (0 <= Zpos q / 2 ^ (e1 - ez)) by (apply Z.div_pos; lia).
        destruct (Z.eq_dec e1 eb) as [Heq|Hne].
        -- specialize (Hm' Heq). apply pack_not_below_pos; [lia|right; lia].
        -- apply pack_not_below_pos; [lia|left; lia].
      * apply pack_not_below_pos; [lia|left; lia].
Qed.


(** The difference of a number and one that it is not below is not
    negative. *)
Lemma SFsub_not_negative (a b : spec_float) :
  valid_binary prec emax a = true -> valid_binary prec emax b = true ->
  SFltb a b = false ->
  valid_binary prec emax (SFsub prec emax a b) = true
  /\ SFltb (SFsub prec emax a b) (S754_zero false) = false.
Proof.
  intros Ha Hb Hn.
  destruct a as [sa|sa| |sa ma ea].
  - destruct b as [sb|sb| |sb mb eb].
    + destruct sa, sb; split; reflexivity.
    + destruct sb; [split; reflexivity|discriminate Hn].
    + split; reflexivity.
    + destruct sb; [split; [exact Hb|reflexivity]|discriminate Hn].
  - destruct b as [sb|sb| |sb mb eb]; destruct sa; try discriminate Hn;
      try destruct sb; try discriminate Hn; split; reflexivity.
  - destruct b; split; reflexivity.
  - destruct b as [sb|sb| |sb mb eb].
    + destruct sa; [discriminate Hn|]. split; [exact Ha|reflexivity].
    + destruct sb; [split; reflexivity|discriminate Hn].
    + split; reflexivity.
    + simpl in Ha, Hb.
      apply bounded_inv in Ha as [Hca Hea].
      apply bounded_inv in Hb as [Hcb Heb].
      change (SFsub prec emax (S754_finite sa ma ea) (S754_finite sb mb eb))
        with (binary_normalize prec emax
                (cond_Zopp sa (Zpos (shl_align ma ea (Z.min ea eb)).1)
                 - cond_Zopp sb (Zpos (shl_align mb eb (Z.min ea eb)).1))
                (Z.min ea eb) false).
      rewrite !shl_align_fst by lia.
      set (ez := Z.min ea eb). set (A := Zpos ma * 2 ^ (ea - ez)).
      set (B := Zpos mb * 2 ^ (eb - ez)).
      assert (HkA : 0 < 2 ^ (ea - ez)) by (apply Z.pow_pos_nonneg; lia).
      assert (HkB : 0 < 2 ^ (eb - ez)) by (apply Z.pow_pos_nonneg; lia).
      assert (HA : 0 < A) by (unfold A; nia).
      assert (HB : 0 < B) by (unfold B; nia).
      assert (HM : 0 <= cond_Zopp sa A - cond_Zopp sb B).
      { unfold SFltb, SFcompare in Hn. fold (Pos.compare ma mb) in Hn.
        destruct sa, sb; simpl cond_Zopp; try discriminate Hn; try lia.
        - destruct (Z.compare_spec ea eb) as [Heq|Hlt|Hgt];
            try discriminate Hn.
          + destruct (Pos.compare_spec ma mb) as [Hm|Hm|Hm];
              try discriminate Hn; unfold A, B; subst; nia.
          + pose proof (canonical_lt mb ma eb ea Hcb Hca Hlt) as Hv.
            unfold A, B, ez. rewrite Z.min_l by lia.
            rewrite Z.sub_diag. change (2 ^ 0) with 1. lia.
        - destruct (Z.compare_spec ea eb) as [Heq|Hlt|Hgt];
            try discriminate Hn.
          + destruct (Pos.compare_spec ma mb) as [Hm|Hm|Hm];
              try discriminate Hn; unfold A, B; subst; nia.
          + pose proof (canonical_lt ma mb ea eb Hca Hcb Hgt) as Hv.
            unfold A, B, ez. rewrite Z.min_r by lia.
            rewrite Z.sub_diag. change (2 ^ 0) with 1. lia. }
      destruct (cond_Zopp sa A - cond_Zopp sb B) as [|q|q]; try lia;
        simpl binary_normalize; [split; reflexivity|].
      destruct (binary_round_shape false q ez) as [Hv Hs].
      split; [exact Hv|].
      apply (shape_false_not_below _ 1%positive 0), Hs.
Qed.

(** The product of two numbers that are not negative is not negative. *)
Lemma SFmul_not_negative (d f : spec_float) :
  valid_binary prec emax d = true -> valid_binary prec emax f = true ->
  SFltb d (S754_zero false) = false -> SFltb f (S754_zero false) = false ->
  valid_binary prec emax (SFmul prec emax d f) = true
  /\ SFltb (SFmul prec emax d f) (S754_zero false) = false.
Proof.
  intros Hd Hf Hnd Hnf.
  destruct d as [sd|sd| |sd md ed], f as [sf|sf| |sf mf ef];
    try (split; reflexivity);
    try (destruct sd; try discriminate Hnd; destruct sf;
         try discriminate Hnf; split; reflexivity).
  destruct sd; [discriminate Hnd|]. destruct sf; [discriminate Hnf|].
  simpl in Hd, Hf.
  apply bounded_inv in Hd as [Hcd _]. apply bounded_inv in Hf as [Hcf _].
  destruct (canonical_digits md ed Hcd) as (Hed & Hdd & _ & Hsd).
  destruct (canonical_digits mf ef Hcf) as (Hef & Hdf & _ & Hsf).
  pose proof emin_nonpos as Hemin.
  change (SFmul prec emax (S754_finite false md ed) (S754_finite false mf ef))
    with (binary_round_aux prec emax false (Zpos (md * mf)) (ed + ef)
            loc_Exact).
  destruct (binary_round_aux_shape false (Zpos (md * mf)) (ed + ef))
    as [Hv Hs]; [lia| |split; [exact Hv|]].
  - pose proof (Zdigits2_bounds (Zpos md) ltac:(lia)) as [Hlo1 _].
    pose proof (Zdigits2_bounds (Zpos mf) ltac:(lia)) as [Hlo2 _].
    pose proof (Zdigits2_pos (Zpos md) ltac:(lia)) as Hp1.
    pose proof (Zdigits2_pos (Zpos mf) ltac:(lia)) as Hp2.
    assert (Hlo : 2 ^ (Zdigits2 (Zpos md) + Zdigits2 (Zpos mf) - 2)
                  <= Zpos (md * mf)).
    { replace (Zdigits2 (Zpos md) + Zdigits2 (Zpos mf) - 2)
        with ((Zdigits2 (Zpos md) - 1) + (Zdigits2 (Zpos mf) - 1)) by lia.
      rewrite Z.pow_add_r by lia. rewrite Pos2Z.inj_mul.
      apply Z.mul_le_mono_nonneg; try lia;
        apply Z.pow_nonneg; lia. }
    assert (Hdg : Zdigits2 (Zpos md) + Zdigits2 (Zpos mf) - 1
                  <= Zdigits2 (Zpos (md * mf))).
    { rewrite (Zdigits2_log2 (Zpos (md * mf))) by lia.
      apply Z.log2_le_pow2 in Hlo; lia. }
    unfold SpecFloat.fexp in *. lia.
  - apply (shape_false_not_below _ 1%positive 0), Hs.
Qed.

End Format.

(** ** The maximum of a row *)

Lemma fold_tensor_max_nan (row : list spec_float) (a : spec_float) :
  Exists (fun x => F32.is_nan x = true) (a :: row) ->
  fold_left F32.tensor_max row a = S754_nan.
Proof.
  revert a. induction row as [|x row IH]; intros a Hex; simpl.
  - apply Exists_cons in Hex as [Ha|Hex]; [|inversion Hex].
    destruct a; try discriminate. reflexivity.
  - apply IH. apply Exists_cons in Hex as [Ha|Hex].
    + left. unfold F32.tensor_max. rewrite Ha. exact Ha.
    + apply Exists_cons in Hex as [Hx|Hex]; [|right; exact Hex].
      left. unfold F32.tensor_max. destruct (F32.is_nan a) eqn:Ha; [exact Ha|].
      rewrite Hx. exact Hx.
Qed.

Lemma fold_tensor_max_max (row : list spec_float) (a : spec_float) :
  Forall (fun x => F32.is_nan x = false) (a :: row) ->
  let q := fold_left F32.tensor_max row a in
  F32.is_nan q = false /\ q ∈ a :: row
  /\ Forall (fun x => SFltb q x = false) (a :: row).
Proof.
  revert a. induction row as [|x row IH]; intros a Hall; simpl.
  - apply Forall_cons in Hall as [Ha _].
    split; [exact Ha|split; [apply list_elem_of_here|]].
    constructor; [apply SFltb_irrefl|constructor].
  - apply Forall_cons in Hall as [Ha Hall].
    apply Forall_cons in Hall as [Hx Hall].
    assert (Hm : F32.tensor_max a x = (if SFltb a x then x else a))
      by (unfold F32.tensor_max; rewrite Ha, Hx; reflexivity).
    destruct (IH (F32.tensor_max a x)) as (Hq & Hin & Hle).
    { constructor; [|exact Hall]. rewrite Hm. destruct (SFltb a x); assumption. }
    set (q := fold_left F32.tensor_max row (F32.tensor_max a x)) in *.
    apply Forall_cons in Hle as [Hqm Hle].
    split; [exact Hq|split].
    + apply elem_of_cons in Hin as [Hin|Hin].
      * rewrite Hin, Hm. destruct (SFltb a x).
        -- apply list_elem_of_further, list_elem_of_here.
        -- apply list_elem_of_here.
      * do 2 apply list_elem_of_further. exact Hin.
    + rewrite Hm in Hqm. destruct (SFltb a x) eqn:Hax.
      * constructor; [|constructor; assumption].
        destruct (SFltb q a) eqn:Hqa; [|reflexivity].
        rewrite (SFltb_trans q a x Hqa Hax) in Hqm. discriminate.
      * constructor; [exact Hqm|]. constructor; [|exact Hle].
        destruct (SFltb q x) eqn:Hqx; [|reflexivity].
        destruct (SFltb_between q a x Ha Hqx) as [H1|H1]; congruence.
Qed.

Lemma F32_row_max_is_max (row : list spec_float) (q : spec_float) :
  F32.row_max row = Some q -> F32.is_max row q.
Proof.
  destruct row as [|a row]; [discriminate|]. intros [= <-]. split.
  - apply fold_tensor_max_nan.
  - intros Hall. destruct (fold_tensor_max_max row a Hall) as (_ & Hin & Hle).
    split; assumption.
Qed.

(** ** The Bellman target *)

(** A finite continuation is masked by a done flag of one. *)
Lemma continuation_masked (r p : spec_float) :
  F32.is_finite p = true ->
  F32.same_number (F32.add r (F32.mul p (F32.sub F32.one F32.one))) r.
Proof.
  intros Hp. change (F32.sub F32.one F32.one) with (S754_zero false).
  destruct p as [sp|sp| |sp mp ep]; try discriminate;
    destruct r as [sr|sr| |sr mr er]; simpl;
    try (left; reflexivity);
    destruct sr, sp; simpl; unfold F32.same_number; auto.
Qed.

Lemma expected_q_values_targets (gamma : spec_float)
    (rows : F32.Sample -> list spec_float) (batch : list F32.Sample)
    (next_q : list spec_float) :
  F32.next_q_values (map rows batch) = Some next_q ->
  Forall2 (fun s y => F32.is_target gamma (rows s) (F32.done s)
                        (F32.reward s) y) batch
    (F32.expected_q_values next_q gamma
       (F32.done_tensor (map F32.done batch)) (map F32.reward batch)).
Proof.
  unfold F32.next_q_values. rewrite mapM_Some, Forall2_fmap_l.
  unfold F32.expected_q_values, F32.done_tensor.
  induction 1 as [|s q batch qs Hq _ IH]; cbn [map zip_with]; constructor;
    [|exact IH].
  assert (Hy : F32.add (F32.mul (F32.mul q gamma)
                          (F32.sub F32.one
                             (if F32.done s then F32.one else F32.zero)))
                 (F32.reward s)
               = F32.add (F32.reward s)
                   (F32.mul (F32.mul gamma q)
                      (F32.sub F32.one
                         (if F32.done s then F32.one else F32.zero)))).
  { unfold F32.add, F32.mul.
    rewrite SFadd_comm, (SFmul_comm _ _ q gamma). reflexivity. }
  exists q. split; [exact Hq|split; [apply F32_row_max_is_max, Hq|]].
  rewrite Hy. split; [reflexivity|split].
  - intros ->. reflexivity.
  - intros -> Hfin. apply continuation_masked, Hfin.
Qed.

Lemma targets_all_done (gamma : spec_float)
    (rows : F32.Sample -> list spec_float) (batch : list F32.Sample)
    (targets : list spec_float) :
  Forall2 (fun s y => F32.is_target gamma (rows s) (F32.done s)
                        (F32.reward s) y) batch targets ->
  Forall (fun s => F32.done s = true
                   /\ forall next_q, F32.row_max (rows s) = Some next_q ->
                        F32.is_finite (F32.mul gamma next_q) = true) batch ->
  Forall2 (fun s y => F32.same_number y (F32.reward s)) batch targets.
Proof.
  induction 1 as [|s y batch ys (q & Hq & _ & _ & _ & Hdone) _ IH];
    intros Hall; constructor.
  - apply Forall_cons in Hall as [[Hd Hfin] _].
    apply Hdone; [exact Hd|apply Hfin, Hq].
  - apply IH. apply Forall_cons in Hall as [_ Hall]. exact Hall.
Qed.




(** ** The exploration schedule *)

Section ScheduleProps.
Context `{F64.Numpy}.

Lemma floor_is_kept (eps eend f : spec_float) :
  SFeqb eps eend = true -> F64.is_finite eend = true ->
  F64.is_finite f = true ->
  SFeqb (F64.add eend (F64.mul (F64.sub eps eend) f)) eend = true.
Proof.
  intros He Hend Hf.
  destruct (SFeqb_finite eps eend He Hend)
    as [(sx & sy & -> & ->)|(s & m & e & -> & ->)].
  - destruct f as [sf|sf| |sf mf ef]; try discriminate;
      destruct sx, sy, sf; reflexivity.
  - assert (Hsub : F64.sub (S754_finite s m e) (S754_finite s m e)
                   = S754_zero false).
    { unfold F64.sub, SFsub. rewrite Z.sub_diag. reflexivity. }
    rewrite Hsub.
    destruct f as [sf|sf| |sf mf ef]; try discriminate; simpl;
      unfold SFeqb; simpl; rewrite Z.compare_refl; fold (Pos.compare m m);
      rewrite Pos.compare_refl; destruct s; reflexivity.
Qed.

Lemma select_action_schedule_keeps (s : F64.Schedule) :
  F64.steps_done (F64.select_action_schedule s) = F64.steps_done s + 1
  /\ F64.epsilon_end (F64.select_action_schedule s) = F64.epsilon_end s
  /\ F64.epsilon_decay (F64.select_action_schedule s) = F64.epsilon_decay s.
Proof.
  unfold F64.select_action_schedule.
  destruct (F64.exponent _ _); repeat split.
Qed.

Lemma select_action_calls_keeps (n : nat) (s : F64.Schedule) :
  F64.steps_done (F64.select_action_calls n s) = F64.steps_done s + Z.of_nat n
  /\ F64.epsilon_end (F64.select_action_calls n s) = F64.epsilon_end s
  /\ F64.epsilon_decay (F64.select_action_calls n s) = F64.epsilon_decay s.
Proof.
  revert s. induction n as [|n IH]; intros s.
  - simpl. rewrite Z.add_0_r. repeat split.
  - cbn [F64.select_action_calls].
    destruct (IH (F64.select_action_schedule s)) as (S1 & E1 & D1).
    destruct (select_action_schedule_keeps s) as (S2 & E2 & D2).
    rewrite S1, E1, D1, S2, E2, D2. repeat split. lia.
Qed.

(** An [epsilon] that equals [epsilon_end] equals it after every further
    call, as long as the exponential returns finite values. *)
Lemma floor_is_absorbing (m : nat) (s : F64.Schedule) :
  F64.is_finite (F64.epsilon_end s) = true ->
  SFeqb (F64.epsilon s) (F64.epsilon_end s) = true ->
  (forall k x, F64.steps_done s < k <= F64.steps_done s + Z.of_nat m ->
               F64.exponent k (F64.epsilon_decay s) = Some x ->
               F64.is_finite (F64.np_exp x) = true) ->
  SFeqb (F64.epsilon (F64.select_action_calls m s)) (F64.epsilon_end s) = true.
Proof.
  revert s. induction m as [|m IH]; intros s Hend Heq Hexp; [exact Heq|].
  cbn [F64.select_action_calls].
  destruct (select_action_schedule_keeps s) as (S2 & E2 & D2).
  rewrite <- E2. apply IH.
  - rewrite E2. exact Hend.
  - rewrite E2. unfold F64.select_action_schedule.
    destruct (F64.exponent (F64.steps_done s + 1) (F64.epsilon_decay s))
      as [x|] eqn:Hx; cbn [F64.epsilon]; [|exact Heq].
    apply floor_is_kept; [exact Heq|exact Hend|].
    apply (Hexp (F64.steps_done s + 1) x); [lia|exact Hx].
  - intros k x Hk Hx. rewrite S2 in Hk. rewrite D2 in Hx.
    apply (Hexp k x); [lia|exact Hx].
Qed.

(** One call keeps [epsilon] a float64 that is not below [epsilon_end]. *)
Lemma select_action_schedule_not_below (s : F64.Schedule) :
  valid_binary prec emax (F64.epsilon s) = true ->
  valid_binary prec emax (F64.epsilon_end s) = true ->
  SFltb (F64.epsilon s) (F64.epsilon_end s) = false ->
  (forall x,
      F64.exponent (F64.steps_done s + 1) (F64.epsilon_decay s) = Some x ->
      valid_binary prec emax (F64.np_exp x) = true
      /\ SFltb (F64.np_exp x) (S754_zero false) = false) ->
  valid_binary prec emax (F64.epsilon (F64.select_action_schedule s)) = true
  /\ SFltb (F64.epsilon (F64.select_action_schedule s)) (F64.epsilon_end s)
     = false.
Proof.
  intros Hv Hvend Hge Hexp. unfold F64.select_action_schedule.
  destruct (F64.exponent (F64.steps_done s + 1) (F64.epsilon_decay s))
    as [x|]; cbn [F64.epsilon]; [|split; assumption].
  destruct (Hexp x eq_refl) as [Hvf Hnf].
  assert (Hprec : 0 < prec) by reflexivity.
  assert (Hemax : prec < emax) by reflexivity.
  destruct (SFsub_not_negative prec emax Hprec (F64.epsilon s)
              (F64.epsilon_end s) Hv Hvend Hge) as [Hvd Hnd].
  destruct (SFmul_not_negative prec emax Hprec Hemax _ (F64.np_exp x)
              Hvd Hvf Hnd Hnf) as [Hvp Hnp].
  exact (SFadd_not_below prec emax Hprec (F64.epsilon_end s) _ Hvend Hvp Hnp).
Qed.

Lemma select_action_calls_not_below (n : nat) (s : F64.Schedule) :
  valid_binary prec emax (F64.epsilon s) = true ->
  valid_binary prec emax (F64.epsilon_end s) = true ->
  SFltb (F64.epsilon s) (F64.epsilon_end s) = false ->
  (forall k x, F64.steps_done s < k <= F64.steps_done s + Z.of_nat n ->
               F64.exponent k (F64.epsilon_decay s) = Some x ->
               valid_binary prec emax (F64.np_exp x) = true
               /\ SFltb (F64.np_exp x) (S754_zero false) = false) ->
  SFltb (F64.epsilon (F64.select_action_calls n s)) (F64.epsilon_end s)
  = false.
Proof.
  revert s. induction n as [|n IH]; intros s Hv Hvend Hge Hexp; [exact Hge|].
  cbn [F64.select_action_calls].
  destruct (select_action_schedule_keeps s) as (S2 & E2 & D2).
  destruct (select_action_schedule_not_below s Hv Hvend Hge) as [Hv' Hge'].
  { intros x Hx. apply (Hexp (F64.steps_done s + 1) x); [lia|exact Hx]. }
  rewrite <- E2. apply IH.
  - exact Hv'.
  - rewrite E2. exact Hvend.
  - rewrite E2. exact Hge'.
  - intros k x Hk Hx. rewrite S2 in Hk. rewrite D2 in Hx.
    apply (Hexp k x); [lia|exact Hx].
Qed.


End ScheduleProps.

Lemma table_numpy_values (k : Z) (y : spec_float) :
  0 < k <= 10 ->
  F64.exponent k (F64.epsilon_decay F64.fast_schedule) = Some y ->
  valid_binary prec emax (F64.np_exp (Numpy := F64.table_numpy) y) = true
  /\ SFltb (F64.np_exp (Numpy := F64.table_numpy) y) (S754_zero false) = false
  /\ F64.is_finite (F64.np_exp (Numpy := F64.table_numpy) y) = true.
Proof.
  intros Hk Hy.
  assert (Hcases : k = 1 \/ k = 2 \/ k = 3 \/ k = 4 \/ k = 5 \/ k = 6
                   \/ k = 7 \/ k = 8 \/ k = 9 \/ k = 10) by lia.
  repeat (destruct Hcases as [->|Hcases]); try subst k;
    vm_compute in Hy; injection Hy as <-; vm_compute; repeat split.
Qed.


